(** * py-eddy-tracker: the Cython numeric core ([tools.pyx])

    A shallow embedding of the six entry points of the module
    ([fit_circle_c], [winding_number_poly], [distance], [distance_vector],
    [distance_matrix], [index_from_nearest_path]) and of their [cdef] helpers,
    followed by the properties proved about them.

    Conventions of the embedding:
    - [DTYPE_coord] (C [double]) is Rocq's primitive binary64 [float];
    - [DTYPE_ui] (C [unsigned int]) is a [Z] in [0, 2^32), every arithmetic
      result being reduced by [u32]; the C [int] counter of
      [winding_number_poly] is reduced by [s32];
    - an [ndarray] or a raw pointer is a [list]; the module is compiled with
      [boundscheck(False)], so an access outside the buffer has no defined
      result: it is the outcome [Undefined];
    - a Python exception is the outcome [Raise e]; [malloc] is taken to
      succeed;
    - the C library ([sin], [cos], [atan2], [pow]) and [numpy.linalg.lstsq]
      are parameters of the development. *)

From Stdlib Require Import ZArith List Bool Lia Floats.
Import ListNotations.

Set Warnings "-inexact-float".

Local Open Scope Z_scope.

(** ** Outcomes of a call *)

Inductive exn : Type :=
| ZeroDivisionError
| ValueError
| OverflowError
| LinAlgError.

Inductive outcome (A : Type) : Type :=
| Ok (a : A)
| Raise (e : exn)
| Undefined.

Arguments Ok {A} a.
Arguments Raise {A} e.
Arguments Undefined {A}.

Definition bind {A B : Type} (m : outcome A) (k : A -> outcome B) : outcome B :=
  match m with
  | Ok a => k a
  | Raise e => Raise e
  | Undefined => Undefined
  end.

Declare Scope outcome_scope.
Delimit Scope outcome_scope with outcome.
Notation "x <- m ;; k" := (bind m (fun x => k))
  (at level 61, m at next level, right associativity) : outcome_scope.
Notation "' p <- m ;; k" := (bind m (fun p => k))
  (at level 61, p pattern, m at next level, right associativity) : outcome_scope.
Local Open Scope outcome_scope.

(** ** Machine integers *)

Definition u32 (z : Z) : Z := z mod 2 ^ 32.
Definition s32 (z : Z) : Z := (z + 2 ^ 31) mod 2 ^ 32 - 2 ^ 31.

(** Conversion of a Python integer to [DTYPE_ui] (unpacking a tuple returned
    by a [cdef] helper into typed variables): out-of-range values raise. *)
Definition to_ui (z : Z) : outcome Z :=
  if (0 <=? z) && (z <? 2 ^ 32) then Ok z else Raise OverflowError.

(** ** Buffers *)

(** [buf[i]] without bounds check. *)
Definition read {A : Type} (buf : list A) (i : Z) : outcome A :=
  if i <? 0 then Undefined
  else match nth_error buf (Z.to_nat i) with
       | Some a => Ok a
       | None => Undefined
       end.

Fixpoint set_nth {A : Type} (buf : list A) (n : nat) (a : A) : option (list A) :=
  match buf, n with
  | [], _ => None
  | _ :: tl, O => Some (a :: tl)
  | hd :: tl, S n' => option_map (cons hd) (set_nth tl n' a)
  end.

(** [buf[i] = a] without bounds check. *)
Definition write {A : Type} (buf : list A) (i : Z) (a : A) : outcome (list A) :=
  if i <? 0 then Undefined
  else match set_nth buf (Z.to_nat i) a with
       | Some buf' => Ok buf'
       | None => Undefined
       end.

(** [for i from a <= i < b: body]: the bound is evaluated once and the
    variable counts upwards from [a]; [for_loop n a] runs the [n] iterations
    [a, a+1, ...] (below the bound, hence without wrap-around). *)
Fixpoint for_loop {S : Type} (n : nat) (i : Z) (body : Z -> S -> outcome S) (s : S)
  : outcome S :=
  match n with
  | O => Ok s
  | S n' => s' <- body i s ;; for_loop n' (i + 1) body s'
  end.

Definition for_from {S : Type} (a b : Z) (body : Z -> S -> outcome S) (s : S)
  : outcome S :=
  for_loop (Z.to_nat (b - a)) a body s.

(** ** Floating point *)

Definition D2R : float := 0.017453292519943295%float.
Definition PI : float := 3.141592653589793%float.

(** Cython's [/] on C operands (the module sets no [cdivision] directive): a
    zero divisor raises [ZeroDivisionError]. *)
Definition fdiv (a b : float) : outcome float :=
  if (b =? 0)%float then Raise ZeroDivisionError else Ok (a / b)%float.

(** ** ContourIndex *)

Section ContourIndex.

(** C's [pow], reached through the [**] operator on [double] operands. *)
Variable pow : float -> float -> float.

Definition sq_dist (x y xpt ypt : float) : float :=
  (pow (x - xpt) 2 + pow (y - ypt) 2)%float.

(** One pass of the scan, on the pair [(i_ref, dist_ref)]. *)
Definition nearest_step (x_value y_value : list float) (xpt ypt : float)
    (i_elt : Z) (st : Z * float) : outcome (Z * float) :=
  let '(i_ref, dist_ref) := st in
  x <- read x_value i_elt ;;
  y <- read y_value i_elt ;;
  let dist := sq_dist x y xpt ypt in
  if (dist <? dist_ref)%float then Ok (i_elt, dist) else Ok (i_ref, dist_ref).

Definition nearest_contour_index (x_value y_value : list float)
    (xpt ypt : float) (start end_ : Z) : outcome Z :=
  x0 <- read x_value start ;;
  y0 <- read y_value start ;;
  '(i_ref, _) <-
    for_from start end_ (nearest_step x_value y_value xpt ypt)
      (start, sq_dist x0 y0 xpt ypt) ;;
  Ok (u32 (i_ref - start)).

End ContourIndex.

(** [i_contour] is an untyped local of the helper, hence a Python integer:
    the last component is an unbounded sum. *)
Definition dist_array_size (l_i nb_c_per_l : Z) (nb_pt_per_c c_i : list Z)
  : outcome (Z * Z * Z * Z) :=
  let i_start := l_i in
  let i_end := u32 (i_start + nb_c_per_l) in
  nb_pts <-
    for_from i_start i_end
      (fun i_elt nb_pts =>
         n <- read nb_pt_per_c i_elt ;; Ok (u32 (nb_pts + n)))
      0 ;;
  i_contour <- read c_i i_start ;;
  Ok (i_start, i_end, i_contour, i_contour + nb_pts).

(** The closing loop of [index_from_nearest_path], with its early [return];
    [n] iterations remain and the loop variable is [i_elt]. When the loop
    runs out the variable keeps the value of the bound. *)
Fixpoint owner_scan (n : nat) (i_elt main_start : Z)
    (indices_of_first_pts : list Z) (nearesti : Z) : outcome Z :=
  match n with
  | O => Ok (u32 (u32 (i_elt - 1) - main_start))
  | S n' =>
      f <- read indices_of_first_pts i_elt ;;
      f0 <- read indices_of_first_pts main_start ;;
      if u32 (f - f0) >? nearesti then Ok (u32 (u32 (i_elt - 1) - main_start))
      else owner_scan n' (i_elt + 1) main_start indices_of_first_pts nearesti
  end.

(** [None] is Python's [None]; note that the helper receives [y_value] for
    both coordinate buffers, as in the source. *)
Definition index_from_nearest_path (pow : float -> float -> float)
    (level_index : Z) (l_i nb_c_per_l nb_pt_per_c indices_of_first_pts : list Z)
    (x_value y_value : list float) (xpt ypt : float) : outcome (option Z) :=
  nb_contour <- read nb_c_per_l level_index ;;
  if nb_contour =? 0 then Ok None
  else
    l <- read l_i level_index ;;
    '(i_start, i_end, i_contour, i_stop) <-
      dist_array_size l nb_contour nb_pt_per_c indices_of_first_pts ;;
    main_start <- to_ui i_start ;;
    main_stop <- to_ui i_end ;;
    start <- to_ui i_contour ;;
    end_ <- to_ui i_stop ;;
    r <- nearest_contour_index pow y_value y_value xpt ypt start end_ ;;
    nearesti <- to_ui r ;;
    idx <- owner_scan (Z.to_nat (main_stop - main_start)) main_start main_start
             indices_of_first_pts nearesti ;;
    Ok (Some idx).

(** The flattened multi-level contour collection handed to
    [index_from_nearest_path]. *)
Record collection : Type := {
  l_i : list Z;
  nb_c_per_l : list Z;
  nb_pt_per_c : list Z;
  indices_of_first_pts : list Z;
  x_value : list float;
  y_value : list float
}.

Definition locate_nearest_contour (pow : float -> float -> float)
    (level : Z) (c : collection) (target_x target_y : float)
  : outcome (option Z) :=
  index_from_nearest_path pow level (l_i c) (nb_c_per_l c) (nb_pt_per_c c)
    (indices_of_first_pts c) (x_value c) (y_value c) target_x target_y.

(** Consecutive contours are stored back to back in the point buffers. *)
Fixpoint back_to_back (firsts counts : list Z) : bool :=
  match firsts, counts with
  | f0 :: ((f1 :: _) as ft), n0 :: nt => (f1 =? f0 + n0) && back_to_back ft nt
  | _, _ => true
  end.

(** The invariants of the layout: the per-level and the per-contour arrays
    have matching lengths, every level names a range of contours that
    exists, every contour a non-empty range of points that exists, contours
    follow one another in the point buffers, and every size fits
    [DTYPE_ui]. *)
Definition well_formedb (c : collection) : bool :=
  (length (l_i c) =? length (nb_c_per_l c))%nat
  && (length (nb_pt_per_c c) =? length (indices_of_first_pts c))%nat
  && (length (x_value c) =? length (y_value c))%nat
  && (Z.of_nat (length (indices_of_first_pts c)) <? 2 ^ 32)
  && (Z.of_nat (length (y_value c)) <? 2 ^ 32)
  && forallb (fun '(l, nb) =>
                (0 <=? l) && (0 <=? nb)
                && (l + nb <=? Z.of_nat (length (indices_of_first_pts c))))
       (combine (l_i c) (nb_c_per_l c))
  && forallb (fun '(f, n) =>
                (0 <=? f) && (1 <=? n)
                && (f + n <=? Z.of_nat (length (y_value c))))
       (combine (indices_of_first_pts c) (nb_pt_per_c c))
  && back_to_back (indices_of_first_pts c) (nb_pt_per_c c).

(** What [well_formedb] says, index by index. *)
Record layout_facts (c : collection) : Prop := {
  lf_levels : length (l_i c) = length (nb_c_per_l c);
  lf_contours : length (nb_pt_per_c c) = length (indices_of_first_pts c);
  lf_size_c : Z.of_nat (length (indices_of_first_pts c)) < 2 ^ 32;
  lf_size_p : Z.of_nat (length (y_value c)) < 2 ^ 32;
  lf_level : forall (k : nat) (l nb : Z),
      nth_error (l_i c) k = Some l -> nth_error (nb_c_per_l c) k = Some nb ->
      0 <= l /\ 0 <= nb /\ l + nb <= Z.of_nat (length (indices_of_first_pts c));
  lf_contour : forall (j : nat) (f n : Z),
      nth_error (indices_of_first_pts c) j = Some f ->
      nth_error (nb_pt_per_c c) j = Some n ->
      0 <= f /\ 1 <= n /\ f + n <= Z.of_nat (length (y_value c));
  lf_next : forall (j : nat) (f n f' : Z),
      nth_error (indices_of_first_pts c) j = Some f ->
      nth_error (nb_pt_per_c c) j = Some n ->
      nth_error (indices_of_first_pts c) (S j) = Some f' -> f' = f + n
}.

(** ** PolygonContainment *)

Definition is_left (x_line_0 y_line_0 x_line_1 y_line_1 x_test y_test : float)
  : bool :=
  let product :=
    ((x_line_1 - x_line_0) * (y_test - y_line_0)
     - (x_test - x_line_0) * (y_line_1 - y_line_0))%float in
  (0 <? product)%float.

(** One pass of the edge loop: the edge leaves vertex [i_elt]. *)
Definition winding_step (x_test y_test : float) (xy_poly : list (float * float))
    (nb_elt i_elt wn : Z) : outcome Z :=
  '(x_next, y_next) <-
    (if u32 (i_elt + 1) =? nb_elt then read xy_poly 0
     else read xy_poly (u32 (i_elt + 1))) ;;
  '(x_cur, y_cur) <- read xy_poly i_elt ;;
  if (y_cur <=? y_test)%float then
    if (y_test <? y_next)%float then
      if is_left x_cur y_cur x_next y_next x_test y_test
      then Ok (s32 (wn + 1)) else Ok wn
    else Ok wn
  else
    if (y_next <=? y_test)%float then
      if negb (is_left x_cur y_cur x_next y_next x_test y_test)
      then Ok (s32 (wn - 1)) else Ok wn
    else Ok wn.

(** A row of the two-column array [xy_poly] is a pair. *)
Definition winding_number_poly (x_test y_test : float)
    (xy_poly : list (float * float)) : outcome Z :=
  let nb_elt := u32 (Z.of_nat (length xy_poly)) in
  for_from 0 nb_elt (winding_step x_test y_test xy_poly nb_elt) 0.

(** *** Rings and their edges *)

(** The ring started one vertex later. *)
Definition rot1 {A : Type} (l : list A) : list A :=
  match l with
  | [] => []
  | a :: tl => tl ++ [a]
  end.

(** The ring started [k] vertices later. *)
Definition rotate {A : Type} (k : nat) (l : list A) : list A :=
  skipn k l ++ firstn k l.

(** The edges of a closed ring: each vertex with its successor, the last
    one with the first. *)
Definition edges {A : Type} (ring : list A) : list (A * A) :=
  combine ring (rot1 ring).

(** What one edge adds to the winding number. *)
Definition edge_turn (x_test y_test : float) (e : (float * float) * (float * float))
  : Z :=
  let '((x_cur, y_cur), (x_next, y_next)) := e in
  if (y_cur <=? y_test)%float then
    if (y_test <? y_next)%float
       && is_left x_cur y_cur x_next y_next x_test y_test
    then 1 else 0
  else
    if (y_next <=? y_test)%float
       && negb (is_left x_cur y_cur x_next y_next x_test y_test)
    then -1 else 0.

Definition Zsum (l : list Z) : Z := fold_right Z.add 0 l.

(** ** ContourIndex: the layout invariants of the data model

    [well_formedb] asks in addition that no contour is empty and that the
    contours of the whole collection are stored back to back; the data model
    states less. *)

Fixpoint non_decreasing (l : list Z) : bool :=
  match l with
  | a :: ((b :: _) as tl) => (a <=? b) && non_decreasing tl
  | _ => true
  end.

(** The number of points of the contours [l, l + nb). *)
Definition level_points (c : collection) (l nb : Z) : Z :=
  Zsum (firstn (Z.to_nat nb) (skipn (Z.to_nat l) (nb_pt_per_c c))).

(** The arrays have matching lengths and unsigned entries, and every size
    fits [DTYPE_ui]; a level is a range of contours that exists; the starting
    offsets never decrease; the points of a level, as many as the counts of
    its contours add up to, lie in the point buffers from the level's first
    offset on. *)
Definition layout_invariantsb (c : collection) : bool :=
  (length (l_i c) =? length (nb_c_per_l c))%nat
  && (length (nb_pt_per_c c) =? length (indices_of_first_pts c))%nat
  && (length (x_value c) =? length (y_value c))%nat
  && (Z.of_nat (length (indices_of_first_pts c)) <? 2 ^ 32)
  && (Z.of_nat (length (y_value c)) <? 2 ^ 32)
  && forallb (fun n => 0 <=? n) (nb_pt_per_c c)
  && forallb (fun f => 0 <=? f) (indices_of_first_pts c)
  && non_decreasing (indices_of_first_pts c)
  && forallb (fun '(l, nb) =>
                (0 <=? l) && (0 <=? nb)
                && (l + nb <=? Z.of_nat (length (indices_of_first_pts c)))
                && (nth (Z.to_nat l) (indices_of_first_pts c) 0
                    + level_points c l nb
                    <=? Z.of_nat (length (y_value c))))
       (combine (l_i c) (nb_c_per_l c)).

(** ** GeoDistance *)

Section GeoDistance.

Variables sin cos : float -> float.
Variable atan2 : float -> float -> float.
Variable pow : float -> float -> float.

Definition distance (lon0 lat0 lon1 lat1 : float) : float :=
  let sin_dlat := sin ((lat1 - lat0) * 0.5 * D2R)%float in
  let sin_dlon := sin ((lon1 - lon0) * 0.5 * D2R)%float in
  let cos_lat1 := cos (lat0 * D2R)%float in
  let cos_lat2 := cos (lat1 * D2R)%float in
  let a_val := (pow sin_dlon 2 * cos_lat1 * cos_lat2 + pow sin_dlat 2)%float in
  (6371315.0 * 2 * atan2 (pow a_val 0.5) (pow (1 - a_val) 0.5))%float.

(** One pass of the loop of [distance_vector]; the formula is written out
    again, as in the source. *)
Definition distance_vector_step (lon0 lat0 lon1 lat1 : list float) (i_elt : Z)
    (dist : list float) : outcome (list float) :=
  la1 <- read lat1 i_elt ;;
  la0 <- read lat0 i_elt ;;
  let sin_dlat := sin ((la1 - la0) * 0.5 * D2R)%float in
  lo1 <- read lon1 i_elt ;;
  lo0 <- read lon0 i_elt ;;
  let sin_dlon := sin ((lo1 - lo0) * 0.5 * D2R)%float in
  let cos_lat1 := cos (la0 * D2R)%float in
  let cos_lat2 := cos (la1 * D2R)%float in
  let a_val := (pow sin_dlon 2 * cos_lat1 * cos_lat2 + pow sin_dlat 2)%float in
  write dist i_elt
    (6371315.0 * 2 * atan2 (pow a_val 0.5) (pow (1 - a_val) 0.5))%float.

(** The caller supplies the output buffer [dist]; its final content is the
    result. *)
Definition distance_vector (lon0 lat0 lon1 lat1 dist : list float)
  : outcome (list float) :=
  let nb_elt := u32 (Z.of_nat (length lon0)) in
  for_from 0 nb_elt (distance_vector_step lon0 lat0 lon1 lat1) dist.

(** [dist[i, j] = v] on a two-dimensional buffer. *)
Definition write2 (dist : list (list float)) (i j : Z) (v : float)
  : outcome (list (list float)) :=
  row <- read dist i ;;
  row' <- write row j v ;;
  write dist i row'.

(** One pass of the inner loop of [distance_matrix]. *)
Definition distance_matrix_step (lon0 lat0 lon1 lat1 : list float)
    (i_elt0 i_elt1 : Z) (dist : list (list float))
  : outcome (list (list float)) :=
  la1 <- read lat1 i_elt1 ;;
  la0 <- read lat0 i_elt0 ;;
  let sin_dlat := sin ((la1 - la0) * 0.5 * D2R)%float in
  lo1 <- read lon1 i_elt1 ;;
  lo0 <- read lon0 i_elt0 ;;
  let sin_dlon := sin ((lo1 - lo0) * 0.5 * D2R)%float in
  let cos_lat1 := cos (la0 * D2R)%float in
  let cos_lat2 := cos (la1 * D2R)%float in
  let a_val := (pow sin_dlon 2 * cos_lat1 * cos_lat2 + pow sin_dlat 2)%float in
  write2 dist i_elt0 i_elt1
    (6371315.0 * 2 * atan2 (pow a_val 0.5) (pow (1 - a_val) 0.5))%float.

(** One pass of its outer loop: a whole row. *)
Definition distance_matrix_row (lon0 lat0 lon1 lat1 : list float)
    (nb_elt1 i_elt0 : Z) (dist : list (list float))
  : outcome (list (list float)) :=
  for_from 0 nb_elt1 (distance_matrix_step lon0 lat0 lon1 lat1 i_elt0) dist.

Definition distance_matrix (lon0 lat0 lon1 lat1 : list float)
    (dist : list (list float)) : outcome (list (list float)) :=
  let nb_elt0 := u32 (Z.of_nat (length lon0)) in
  let nb_elt1 := u32 (Z.of_nat (length lon1)) in
  for_from 0 nb_elt0 (distance_matrix_row lon0 lat0 lon1 lat1 nb_elt1) dist.

(** The scalar [distance] at positions [i] and [j] of the inputs. *)
Definition distance_at (lon0 lat0 lon1 lat1 : list float) (i j : nat) : float :=
  distance (nth i lon0 0%float) (nth i lat0 0%float)
    (nth j lon1 0%float) (nth j lat1 0%float).

End GeoDistance.

(** ** CircleFitter *)

(** Conversion of a [DTYPE_ui] to [double]. *)
Definition ui_to_double (n : Z) : float := PrimFloat.of_uint63 (Uint63.of_Z n).

(** numpy's element-wise combination of two one-dimensional arrays: equal
    lengths, or one operand of length one stretched to the other. *)
Definition np_broadcast (f : float -> float -> float) (xs ys : list float)
  : outcome (list float) :=
  if (length xs =? length ys)%nat then Ok (map (fun '(x, y) => f x y) (combine xs ys))
  else match xs, ys with
       | [x], _ => Ok (map (f x) ys)
       | _, [y] => Ok (map (fun x => f x y) xs)
       | _, _ => Raise ValueError
       end.

(** numpy's [maximum], which propagates NaN, and the reduction [max()]. *)
Definition np_maximum (a b : float) : float :=
  if (b <=? a)%float || PrimFloat.is_nan a then a else b.

Definition np_max (xs : list float) : outcome float :=
  match xs with
  | [] => Raise ValueError
  | x :: tl => Ok (fold_left np_maximum tl x)
  end.

Section CircleFitter.

Variable pow : float -> float -> float.

(** [numpy.linalg.lstsq], reduced to its first result (the solution). *)
Variable lstsq :
  list (float * float * float) -> list float -> outcome (float * float * float).

(** Lines 39-46: the mean of the vertices. *)
Definition centroid_step (x_vec y_vec : list float) (i_elt : Z)
    (st : float * float) : outcome (float * float) :=
  let '(x_mean, y_mean) := st in
  x <- read x_vec i_elt ;;
  y <- read y_vec i_elt ;;
  Ok (x_mean + x, y_mean + y)%float.

Definition centroid (x_vec y_vec : list float) (nb_elt : Z)
  : outcome (float * float) :=
  '(x_mean, y_mean) <-
    for_from 0 nb_elt (centroid_step x_vec y_vec) (0, 0)%float ;;
  y_mean <- fdiv y_mean (ui_to_double nb_elt) ;;
  x_mean <- fdiv x_mean (ui_to_double nb_elt) ;;
  Ok (x_mean, y_mean).

(** Lines 55-57: one row of the system. *)
Definition datas_step (x_vec y_vec : list float) (x_mean y_mean scale : float)
    (i_elt : Z) (datas : list (float * float * float))
  : outcome (list (float * float * float)) :=
  x <- read x_vec i_elt ;;
  a <- fdiv (2 * (x - x_mean)) scale ;;
  y <- read y_vec i_elt ;;
  b <- fdiv (2 * (y - y_mean)) scale ;;
  Ok (datas ++ [(a, b, 1%float)]).

(** Lines 48-71: the scaled least-squares system and the circle read off its
    solution. numpy squares [(x_vec - x_mean) ** 2] by a product. *)
Definition fitted_circle (x_vec y_vec : list float)
  : outcome (float * float * float) :=
  let nb_elt := u32 (Z.of_nat (length x_vec)) in
  '(x_mean, y_mean) <- centroid x_vec y_vec nb_elt ;;
  norme <-
    np_broadcast
      (fun x y =>
         ((x - x_mean) * (x - x_mean) + (y - y_mean) * (y - y_mean))%float)
      x_vec y_vec ;;
  norme_max <- np_max norme ;;
  let scale := pow norme_max 0.5 in
  datas <- for_from 0 nb_elt (datas_step x_vec y_vec x_mean y_mean scale) [] ;;
  '(center_x, center_y, radius) <-
    lstsq datas (map (fun n => (n / norme_max)%float) norme) ;;
  let radius := (radius + (pow center_x 2 + pow center_y 2))%float in
  let radius := pow radius 0.5 in
  let center_x := (center_x * scale)%float in
  let center_y := (center_y * scale)%float in
  let radius := (radius * scale)%float in
  let center_x := (center_x + x_mean)%float in
  let center_y := (center_y + y_mean)%float in
  Ok (center_x, center_y, radius).

(** Lines 79-87: a vertex strictly outside the circle is moved onto it. *)
Definition project_vertex (center_x center_y radius x y : float)
  : outcome (float * float) :=
  let dist_poly :=
    pow (pow (x - center_x) 2 + pow (y - center_y) 2)%float 0.5 in
  if (radius <? dist_poly)%float then
    q <- fdiv (radius * (y - center_y)) dist_poly ;;
    let p_y := (center_y + q)%float in
    q' <- fdiv ((center_x - x) * (center_y - p_y)) (center_y - y) ;;
    Ok ((center_x - q')%float, p_y)
  else Ok (x, y).

(** Lines 77-87: the scratch buffers [p_inon_x], [p_inon_y], filled in
    order. *)
Definition project_step (center_x center_y radius : float)
    (x_vec y_vec : list float) (i_elt : Z) (st : list float * list float)
  : outcome (list float * list float) :=
  let '(p_inon_x, p_inon_y) := st in
  x <- read x_vec i_elt ;;
  y <- read y_vec i_elt ;;
  '(p_x, p_y) <- project_vertex center_x center_y radius x y ;;
  Ok (p_inon_x ++ [p_x], p_inon_y ++ [p_y]).

Definition project_ring (center_x center_y radius : float)
    (x_vec y_vec : list float) (nb_elt : Z)
  : outcome (list float * list float) :=
  for_from 0 nb_elt (project_step center_x center_y radius x_vec y_vec) ([], []).

(** Lines 90-98: the two running sums [(p_area_incirc, p_area)]. *)
Definition ring_areas_step (p_inon_x p_inon_y x_vec y_vec : list float)
    (i_elt : Z) (st : float * float) : outcome (float * float) :=
  let '(p_area_incirc, p_area) := st in
  px0 <- read p_inon_x i_elt ;;
  py1 <- read p_inon_y (u32 (1 + i_elt)) ;;
  px1 <- read p_inon_x (u32 (i_elt + 1)) ;;
  py0 <- read p_inon_y i_elt ;;
  x0 <- read x_vec i_elt ;;
  y1 <- read y_vec (u32 (1 + i_elt)) ;;
  x1 <- read x_vec (u32 (1 + i_elt)) ;;
  y0 <- read y_vec i_elt ;;
  Ok (p_area_incirc + (px0 * py1 - px1 * py0),
      p_area + (x0 * y1 - x1 * y0))%float.

Definition ring_areas (p_inon_x p_inon_y x_vec y_vec : list float) (nb_elt : Z)
  : outcome (float * float) :=
  for_from 0 (u32 (nb_elt - 1))
    (ring_areas_step p_inon_x p_inon_y x_vec y_vec) (0, 0)%float.

(** The shape error of line 104. *)
Definition shape_error (c_area p_area_incirc p_area : float) : outcome float :=
  fdiv ((c_area - 2 * p_area_incirc + p_area) * 100) c_area.

Definition fit_circle_c (x_vec y_vec : list float)
  : outcome (float * float * float * float) :=
  let nb_elt := u32 (Z.of_nat (length x_vec)) in
  '(center_x, center_y, radius) <- fitted_circle x_vec y_vec ;;
  let c_area := (pow radius 2 * PI)%float in
  '(p_inon_x, p_inon_y) <-
    project_ring center_x center_y radius x_vec y_vec nb_elt ;;
  '(p_area_incirc, p_area) <-
    ring_areas p_inon_x p_inon_y x_vec y_vec nb_elt ;;
  let p_area := (abs p_area * 0.5)%float in
  let p_area_incirc := (abs p_area_incirc * 0.5)%float in
  a_err <- shape_error c_area p_area_incirc p_area ;;
  Ok (center_x, center_y, radius, a_err).

End CircleFitter.

(** The exceptions [fit_circle_c] can end in: a zero divisor, arrays that
    numpy cannot combine, or whatever the solver raises. *)
Definition fit_circle_exn
    (lstsq : list (float * float * float) -> list float
             -> outcome (float * float * float))
    (e : exn) : Prop :=
  e = ZeroDivisionError \/ e = ValueError
  \/ exists datas rhs, lstsq datas rhs = Raise e.

(** ** Areas of a ring *)

(** The shoelace sum over the edges between consecutive stored vertices. *)
Fixpoint chain_shoelace (acc : float) (xs ys : list float) : float :=
  match xs, ys with
  | x0 :: ((x1 :: _) as xt), y0 :: ((y1 :: _) as yt) =>
      chain_shoelace (acc + (x0 * y1 - x1 * y0))%float xt yt
  | _, _ => acc
  end.

(** The area the code derives from a ring: every edge but the closing
    one. *)
Definition chain_area (xs ys : list float) : float :=
  (abs (chain_shoelace 0 xs ys) * 0.5)%float.

(** The area of the closed ring: the same sum with the edge from the last
    stored vertex back to the first. *)
Definition cyclic_area (xs ys : list float) : float :=
  (abs (chain_shoelace 0 (xs ++ firstn 1 xs) (ys ++ firstn 1 ys)) * 0.5)%float.

(** ** Executable stand-ins for the external functions

    They serve to run the definitions on concrete inputs; every theorem
    below is stated for arbitrary ones. *)

(** [pow] at the two exponents the module uses. *)
Definition pow_ieee (x e : float) : float :=
  if (e =? 2)%float then (x * x)%float
  else if (e =? 0.5)%float then PrimFloat.sqrt x
  else nan.

(** Truncated series for the trigonometric functions. *)
Definition sin_series (x : float) : float :=
  let x2 := (x * x)%float in
  (x * (1 - x2 / 6 * (1 - x2 / 20 * (1 - x2 / 42))))%float.

Definition cos_series (x : float) : float :=
  let x2 := (x * x)%float in
  (1 - x2 / 2 * (1 - x2 / 12 * (1 - x2 / 30)))%float.

Definition atan_series (t : float) : float :=
  let t2 := (t * t)%float in
  (t * (1 - t2 * (1 / 3 - t2 * (1 / 5 - t2 / 7))))%float.

Definition atan2_series (y x : float) : float :=
  if (abs y <=? abs x)%float then
    if (0 <? x)%float then atan_series (y / x)
    else if (x <? 0)%float then
      if (y <? 0)%float then (atan_series (y / x) - PI)%float
      else (atan_series (y / x) + PI)%float
    else 0%float
  else
    if (0 <? y)%float then (PI / 2 - atan_series (x / y))%float
    else (- (PI / 2) - atan_series (x / y))%float.

Definition dot (u v : list float) : float :=
  fold_left (fun acc '(a, b) => (acc + a * b)%float) (combine u v) 0%float.

(** The minimum-norm least-squares solution of a three-column system whose
    columns are pairwise orthogonal: each unknown is the projection of the
    right-hand side on its column, and zero for a null column. Other systems
    are left to the real solver, which returns these projections up to
    rounding only. *)
Definition lstsq_orth (datas : list (float * float * float)) (rhs : list float)
  : outcome (float * float * float) :=
  let c0 := map (fun '(a, _, _) => a) datas in
  let c1 := map (fun '(_, b, _) => b) datas in
  let c2 := map (fun '(_, _, c) => c) datas in
  let coef c :=
    if (dot c c =? 0)%float then 0%float else (dot c rhs / dot c c)%float in
  if (length rhs =? length datas)%nat
     && (dot c0 c1 =? 0)%float && (dot c0 c2 =? 0)%float
     && (dot c1 c2 =? 0)%float
  then Ok (coef c0, coef c1, coef c2)
  else Raise LinAlgError.

(** The normal equations of a system at a candidate solution: the products
    of the three columns with the residual; all three vanish at a
    least-squares solution. *)
Definition normal_residual (datas : list (float * float * float))
    (rhs : list float) (sol : float * float * float) : float * float * float :=
  let '(s0, s1, s2) := sol in
  let res :=
    map (fun '((a, b, c), r) => (a * s0 + b * s1 + c * s2 - r)%float)
      (combine datas rhs) in
  (dot (map (fun '(a, _, _) => a) datas) res,
   dot (map (fun '(_, b, _) => b) datas) res,
   dot (map (fun '(_, _, c) => c) datas) res).

(** * Properties *)

(** ** The model on concrete inputs *)

Example D2R_is_PI_over_180 : D2R = (PI / 180)%float.
Proof. reflexivity. Qed.

Example fdiv_zero : fdiv 1 0 = Raise ZeroDivisionError.
Proof. reflexivity. Qed.

Example fdiv_neg_zero : fdiv 1 (-0) = Raise ZeroDivisionError.
Proof. reflexivity. Qed.

(** The two systems solved by [lstsq_orth] in the examples below: the kite
    and the four collinear points; the answers satisfy the normal
    equations exactly. *)
Example lstsq_orth_kite :
  let datas := [(2, 0, 1); (0, 1, 1); (-2, 0, 1); (0, -1, 1)]%float in
  let rhs := [1; 0.25; 1; 0.25]%float in
  lstsq_orth datas rhs = Ok (0, 0, 0.625)%float
  /\ normal_residual datas rhs (0, 0, 0.625)%float = (0, 0, 0)%float.
Proof. split; reflexivity. Qed.

Example lstsq_orth_collinear :
  let datas := [(0, -2, 1); (0, -1, 1); (0, 1, 1); (0, 2, 1)]%float in
  let rhs := [1; 0.25; 0.25; 1]%float in
  lstsq_orth datas rhs = Ok (0, 0, 0.625)%float
  /\ normal_residual datas rhs (0, 0, 0.625)%float = (0, 0, 0)%float.
Proof. split; reflexivity. Qed.

Example index_from_nearest_path_ex :
  index_from_nearest_path pow_ieee 0 [0] [2] [1; 1] [0; 1]
    [0; 100]%float [1; 0]%float 0%float 0%float = Ok (Some 1).
Proof. vm_compute. reflexivity. Qed.

(** ** Outcomes, buffers and machine integers *)

Lemma bind_Ok {A B : Type} (m : outcome A) (k : A -> outcome B) (b : B) :
  bind m k = Ok b -> exists a, m = Ok a /\ k a = Ok b.
Proof.
  destruct m as [a| |]; simpl; intros H; try discriminate.
  exists a; split; [reflexivity | exact H].
Qed.

Lemma bind_ret {A B : Type} (a : A) (k : A -> outcome B) : bind (Ok a) k = k a.
Proof. reflexivity. Qed.

Lemma bind_Raise {A B : Type} (m : outcome A) (k : A -> outcome B) (e : exn) :
  bind m k = Raise e ->
  m = Raise e \/ exists a, m = Ok a /\ k a = Raise e.
Proof.
  destruct m as [a| |]; simpl; intros H; try discriminate.
  - right; exists a; split; [reflexivity | exact H].
  - left; injection H as ->; reflexivity.
Qed.

Lemma for_loop_S {S : Type} (n : nat) (i : Z) (body : Z -> S -> outcome S)
    (s : S) :
  for_loop (Datatypes.S n) i body s
  = (s' <- body i s ;; for_loop n (i + 1) body s').
Proof. reflexivity. Qed.

Lemma u32_small (z : Z) : 0 <= z < 2 ^ 32 -> u32 z = z.
Proof. intros H; unfold u32; apply Z.mod_small; exact H. Qed.

Lemma to_ui_Ok (z : Z) : 0 <= z < 2 ^ 32 -> to_ui z = Ok z.
Proof.
  intros [H0 H1]; unfold to_ui.
  apply Z.leb_le in H0; apply Z.ltb_lt in H1; rewrite H0, H1; reflexivity.
Qed.

Lemma read_nth {A : Type} (buf : list A) (j : nat) (a : A) :
  nth_error buf j = Some a -> read buf (Z.of_nat j) = Ok a.
Proof.
  intros H; unfold read.
  destruct (Z.ltb_spec (Z.of_nat j) 0) as [Hneg|_]; [lia|].
  rewrite Nat2Z.id, H; reflexivity.
Qed.

Lemma read_in_bounds {A : Type} (buf : list A) (j : nat) :
  (j < length buf)%nat ->
  exists a, nth_error buf j = Some a /\ read buf (Z.of_nat j) = Ok a.
Proof.
  intros H.
  destruct (nth_error buf j) as [a|] eqn:E.
  - exists a; split; [reflexivity | apply read_nth; exact E].
  - apply nth_error_None in E; lia.
Qed.

Lemma read_short {A : Type} (buf : list A) (j : nat) :
  (length buf <= j)%nat -> read buf (Z.of_nat j) = Undefined.
Proof.
  intros H. unfold read.
  destruct (Z.ltb_spec (Z.of_nat j) 0) as [_|_]; [reflexivity|].
  rewrite Nat2Z.id. apply nth_error_None in H. rewrite H. reflexivity.
Qed.

Lemma read_Ok_inv {A : Type} (buf : list A) (i : Z) (a : A) :
  read buf i = Ok a -> 0 <= i /\ nth_error buf (Z.to_nat i) = Some a.
Proof.
  unfold read; destruct (Z.ltb_spec i 0) as [Hneg|Hpos]; [discriminate|].
  destruct (nth_error buf (Z.to_nat i)) as [a'|] eqn:E; [|discriminate].
  intros H; injection H as ->; split; [exact Hpos | reflexivity].
Qed.

Lemma nth_error_combine {A B : Type} (l : list A) :
  forall (m : list B) (j : nat) (a : A) (b : B),
    nth_error l j = Some a -> nth_error m j = Some b ->
    In (a, b) (combine l m).
Proof.
  induction l as [|x l IH]; intros m [|j] a b Ha Hb; simpl in *; try discriminate;
    destruct m as [|y m]; simpl in *; try discriminate.
  - injection Ha as ->; injection Hb as ->; left; reflexivity.
  - right; eapply IH; eassumption.
Qed.

Lemma skipn_nth {A : Type} (k : nat) :
  forall (l : list A) (x : A),
    nth_error l k = Some x -> skipn k l = x :: skipn (S k) l.
Proof.
  induction k as [|k IH]; intros [|a l] x H; simpl in H; try discriminate.
  - injection H as ->; reflexivity.
  - apply (IH l x H).
Qed.

(** ** ContourIndex: what well-formedness gives *)

Lemma back_to_back_next (firsts counts : list Z) :
  back_to_back firsts counts = true ->
  forall (j : nat) (f n f' : Z),
    nth_error firsts j = Some f -> nth_error counts j = Some n ->
    nth_error firsts (S j) = Some f' -> f' = f + n.
Proof.
  revert counts.
  induction firsts as [|f0 ft IH]; intros counts Hb j f n f' Hf Hn Hf'.
  - destruct j; discriminate.
  - destruct ft as [|f1 ft']; [destruct j; simpl in Hf'; try discriminate;
                                destruct j; discriminate|].
    destruct counts as [|n0 nt]; [destruct j; discriminate|].
    simpl in Hb; apply andb_true_iff in Hb as [H1 H2].
    destruct j as [|j].
    + simpl in *. injection Hf as ->; injection Hn as ->; injection Hf' as ->.
      apply Z.eqb_eq; exact H1.
    + simpl in Hf, Hn. change (nth_error (f0 :: f1 :: ft') (S (S j)))
        with (nth_error (f1 :: ft') (S j)) in Hf'.
      eapply IH; eassumption.
Qed.

Lemma well_formedb_facts (c : collection) :
  well_formedb c = true -> layout_facts c.
Proof.
  unfold well_formedb; intros H.
  repeat (apply andb_true_iff in H as [H ?]).
  constructor.
  - apply Nat.eqb_eq; assumption.
  - apply Nat.eqb_eq; assumption.
  - apply Z.ltb_lt; assumption.
  - apply Z.ltb_lt; assumption.
  - intros k l nb Hl Hnb.
    match goal with
    | F : forallb _ (combine (l_i c) _) = true |- _ =>
        rewrite forallb_forall in F;
        specialize (F (l, nb) (nth_error_combine _ _ _ _ _ Hl Hnb)); simpl in F
    end.
    lia.
  - intros j f n Hf Hn.
    match goal with
    | F : forallb _ (combine (indices_of_first_pts c) _) = true |- _ =>
        rewrite forallb_forall in F;
        specialize (F (f, n) (nth_error_combine _ _ _ _ _ Hf Hn)); simpl in F
    end.
    lia.
  - apply back_to_back_next; assumption.
Qed.

(** ** ContourIndex: the three loops *)

(** The point count of [dist_array_size]: starting from contour [j], whose
    points begin [acc] after those of the level's first contour, [S n]
    further contours are added without wrap-around and the total stays
    inside the point buffer. *)
Lemma count_loop (c : collection) (W : layout_facts c) (f0 : Z) :
  forall (n j : nat) (fj acc : Z),
    (j + S n <= length (indices_of_first_pts c))%nat ->
    nth_error (indices_of_first_pts c) j = Some fj ->
    0 <= f0 -> acc = fj - f0 -> 0 <= acc ->
    exists acc' fl nl,
      for_loop (S n) (Z.of_nat j)
        (fun i_elt nb_pts =>
           m <- read (nb_pt_per_c c) i_elt ;; Ok (u32 (nb_pts + m))) acc
      = Ok acc'
      /\ acc < acc' /\ f0 + acc' <= Z.of_nat (length (y_value c))
      /\ nth_error (indices_of_first_pts c) (j + n) = Some fl
      /\ nth_error (nb_pt_per_c c) (j + n) = Some nl
      /\ f0 + acc' = fl + nl.
Proof.
  induction n as [|n IH]; intros j fj acc Hlen Hfj Hf0 Hacc Hpos.
  - destruct (read_in_bounds (nb_pt_per_c c) j) as (m & Hm & Hr);
      [rewrite (lf_contours c W); lia|].
    destruct (lf_contour c W j fj m Hfj Hm) as (? & ? & ?).
    pose proof (lf_size_p c W).
    simpl; rewrite Hr; simpl. rewrite u32_small by lia.
    exists (acc + m), fj, m. rewrite Nat.add_0_r.
    repeat split; try assumption; lia.
  - destruct (read_in_bounds (nb_pt_per_c c) j) as (m & Hm & Hr);
      [rewrite (lf_contours c W); lia|].
    destruct (lf_contour c W j fj m Hfj Hm) as (? & ? & ?).
    pose proof (lf_size_p c W).
    destruct (read_in_bounds (indices_of_first_pts c) (S j)) as (f' & Hf' & _);
      [lia|].
    pose proof (lf_next c W j fj m f' Hfj Hm Hf') as Hnext.
    rewrite for_loop_S; cbv beta. rewrite Hr; simpl bind. rewrite u32_small by lia.
    replace (Z.of_nat j + 1) with (Z.of_nat (S j)) by lia.
    destruct (IH (S j) f' (acc + m))
      as (acc' & fl & nl & Hrun & Hlt & Hle & Hfl & Hnl & Hend);
      try lia; try assumption.
    exists acc', fl, nl.
    replace (j + S n)%nat with (S j + n)%nat by lia.
    repeat split; try assumption; lia.
Qed.

(** The scan of [nearest_contour_index] keeps its candidate inside the
    scanned range, whatever the coordinates. *)
Lemma nearest_loop (pow : float -> float -> float) (xs ys : list float)
    (xpt ypt : float) (lo hi : Z) :
  forall (n j : nat) (i_ref : Z) (d : float),
    (j + n <= length xs)%nat -> (j + n <= length ys)%nat ->
    lo <= i_ref < hi -> lo <= Z.of_nat j -> Z.of_nat (j + n) <= hi ->
    exists i_ref' d',
      for_loop n (Z.of_nat j) (nearest_step pow xs ys xpt ypt) (i_ref, d)
      = Ok (i_ref', d')
      /\ lo <= i_ref' < hi.
Proof.
  induction n as [|n IH]; intros j i_ref d Hx Hy Href Hlo Hhi.
  - exists i_ref, d; split; [reflexivity | exact Href].
  - destruct (read_in_bounds xs j) as (x & _ & Hrx); [lia|].
    destruct (read_in_bounds ys j) as (y & _ & Hry); [lia|].
    rewrite for_loop_S; unfold nearest_step at 1.
    rewrite Hrx, bind_ret, Hry, bind_ret; cbv zeta.
    replace (Z.of_nat j + 1) with (Z.of_nat (S j)) by lia.
    destruct (sq_dist pow x y xpt ypt <? d)%float; rewrite bind_ret;
      apply (IH (S j)); lia.
Qed.

Lemma nearest_contour_index_range (pow : float -> float -> float)
    (xs ys : list float) (xpt ypt : float) (start end_ : nat) :
  (start < end_)%nat -> (end_ <= length xs)%nat -> (end_ <= length ys)%nat ->
  Z.of_nat end_ < 2 ^ 32 ->
  exists r,
    nearest_contour_index pow xs ys xpt ypt (Z.of_nat start) (Z.of_nat end_)
    = Ok r
    /\ 0 <= r < Z.of_nat end_ - Z.of_nat start.
Proof.
  intros Hlt Hx Hy Hsz. unfold nearest_contour_index, for_from.
  destruct (read_in_bounds xs start) as (x0 & _ & Hrx); [lia|].
  destruct (read_in_bounds ys start) as (y0 & _ & Hry); [lia|].
  rewrite Hrx, bind_ret, Hry, bind_ret.
  destruct (nearest_loop pow xs ys xpt ypt (Z.of_nat start) (Z.of_nat end_)
              (Z.to_nat (Z.of_nat end_ - Z.of_nat start)) start
              (Z.of_nat start) (sq_dist pow x0 y0 xpt ypt))
    as (i_ref & d & Hrun & Hrange); try lia.
  rewrite Hrun, bind_ret.
  exists (u32 (i_ref - Z.of_nat start)).
  split; [reflexivity|]. rewrite u32_small; lia.
Qed.

Lemma owner_scan_S (n : nat) (i_elt main_start : Z) (firsts : list Z)
    (nearesti : Z) :
  owner_scan (S n) i_elt main_start firsts nearesti
  = (f <- read firsts i_elt ;;
     f0 <- read firsts main_start ;;
     if u32 (f - f0) >? nearesti then Ok (u32 (u32 (i_elt - 1) - main_start))
     else owner_scan n (i_elt + 1) main_start firsts nearesti).
Proof. reflexivity. Qed.

(** Past the level's first contour, the ownership scan answers between the
    contour before the current one and the level's last. *)
Lemma owner_scan_range (firsts : list Z) (ms : nat) (nearesti : Z) :
  forall (n j : nat),
    (ms < j)%nat -> (j + n <= length firsts)%nat ->
    Z.of_nat (j + n) < 2 ^ 32 ->
    exists r,
      owner_scan n (Z.of_nat j) (Z.of_nat ms) firsts nearesti = Ok r
      /\ Z.of_nat j - 1 - Z.of_nat ms <= r
         <= Z.of_nat (j + n) - 1 - Z.of_nat ms.
Proof.
  induction n as [|n IH]; intros j Hms Hlen Hsz.
  - simpl. eexists; split; [reflexivity|].
    rewrite (u32_small (Z.of_nat j - 1)) by lia. rewrite u32_small; lia.
  - destruct (read_in_bounds firsts j) as (f & _ & Hrf); [lia|].
    destruct (read_in_bounds firsts ms) as (f0 & _ & Hrf0); [lia|].
    rewrite owner_scan_S, Hrf, bind_ret, Hrf0, bind_ret.
    destruct (u32 (f - f0) >? nearesti).
    + eexists; split; [reflexivity|].
      rewrite (u32_small (Z.of_nat j - 1)) by lia. rewrite u32_small; lia.
    + replace (Z.of_nat j + 1) with (Z.of_nat (S j)) by lia.
      destruct (IH (S j)) as (r & Hr & Hrange); try lia.
      exists r; split; [exact Hr | lia].
Qed.

(** From the level's first contour: the first comparison is [0 > nearesti],
    which fails, so the answer is never below zero. *)
Lemma owner_scan_from_start (firsts : list Z) (ms n : nat) (nearesti : Z) :
  (1 <= n)%nat -> (ms + n <= length firsts)%nat ->
  Z.of_nat (ms + n) < 2 ^ 32 -> 0 <= nearesti ->
  exists r,
    owner_scan n (Z.of_nat ms) (Z.of_nat ms) firsts nearesti = Ok r
    /\ 0 <= r <= Z.of_nat n - 1.
Proof.
  intros Hn Hlen Hsz Hnear. destruct n as [|n]; [lia|].
  destruct (read_in_bounds firsts ms) as (f0 & _ & Hrf0); [lia|].
  rewrite owner_scan_S, Hrf0, !bind_ret.
  replace (u32 (f0 - f0)) with 0 by (rewrite Z.sub_diag; reflexivity).
  destruct (Z.gtb_spec 0 nearesti) as [Hgt|_]; [lia|].
  replace (Z.of_nat ms + 1) with (Z.of_nat (S ms)) by lia.
  destruct (owner_scan_range firsts ms nearesti n (S ms)) as (r & Hr & Hrange);
    try lia.
  exists r; split; [exact Hr | lia].
Qed.

(** On a well-formed collection [dist_array_size] returns the level's
    contour range and its non-empty point range, every bound fitting
    [DTYPE_ui]. *)
Lemma dist_array_size_wf (c : collection) (W : layout_facts c) (j n : nat) :
  (1 <= n)%nat -> (j + n <= length (indices_of_first_pts c))%nat ->
  exists (start stop : nat) (fl nl : Z),
    dist_array_size (Z.of_nat j) (Z.of_nat n) (nb_pt_per_c c)
      (indices_of_first_pts c)
    = Ok (Z.of_nat j, Z.of_nat (j + n), Z.of_nat start, Z.of_nat stop)
    /\ (start < stop)%nat /\ (stop <= length (y_value c))%nat
    /\ nth_error (indices_of_first_pts c) j = Some (Z.of_nat start)
    /\ nth_error (indices_of_first_pts c) (j + n - 1) = Some fl
    /\ nth_error (nb_pt_per_c c) (j + n - 1) = Some nl
    /\ Z.of_nat stop = fl + nl.
Proof.
  intros Hn Hlen. pose proof (lf_size_c c W) as Hc.
  destruct (read_in_bounds (indices_of_first_pts c) j) as (f0 & Hf0 & Hr0);
    [lia|].
  destruct (read_in_bounds (nb_pt_per_c c) j) as (m & Hm & _);
    [rewrite (lf_contours c W); lia|].
  destruct (lf_contour c W j f0 m Hf0 Hm) as (Hpos & _ & _).
  unfold dist_array_size, for_from.
  rewrite (u32_small (Z.of_nat j + Z.of_nat n)) by lia.
  replace (Z.to_nat (Z.of_nat j + Z.of_nat n - Z.of_nat j)) with n by lia.
  destruct n as [|n]; [lia|].
  destruct (count_loop c W f0 n j f0 0)
    as (acc & fl & nl & Hrun & Hlt & Hle & Hfl & Hnl & Hend);
    try lia; try assumption.
  rewrite Hrun, bind_ret, Hr0, bind_ret.
  exists (Z.to_nat f0), (Z.to_nat (f0 + acc)), fl, nl.
  rewrite !Z2Nat.id by lia.
  replace (j + S n - 1)%nat with (j + n)%nat by lia.
  repeat split; try assumption; try lia.
  replace (Z.of_nat j + Z.of_nat (S n)) with (Z.of_nat (j + S n)) by lia.
  reflexivity.
Qed.

(** The starting offsets grow along the contours. *)
Lemma firsts_increasing (c : collection) (W : layout_facts c) :
  forall (d j : nat) (f f' : Z),
    nth_error (indices_of_first_pts c) j = Some f ->
    nth_error (indices_of_first_pts c) (j + d) = Some f' ->
    f + Z.of_nat d <= f'.
Proof.
  induction d as [|d IH]; intros j f f' Hf Hf'.
  - rewrite Nat.add_0_r, Hf in Hf'. injection Hf' as <-. lia.
  - assert (Hlt : (j + S d < length (indices_of_first_pts c))%nat)
      by (apply nth_error_Some; rewrite Hf'; discriminate).
    destruct (read_in_bounds (indices_of_first_pts c) (j + d))
      as (f'' & Hf'' & _); [lia|].
    destruct (read_in_bounds (nb_pt_per_c c) (j + d)) as (n'' & Hn'' & _);
      [rewrite (lf_contours c W); lia|].
    replace (j + S d)%nat with (S (j + d)) in Hf' by lia.
    pose proof (lf_next c W (j + d) f'' n'' f' Hf'' Hn'' Hf') as Hnext.
    destruct (lf_contour c W (j + d) f'' n'' Hf'' Hn'') as (_ & Hn1 & _).
    specialize (IH j f f'' Hf Hf''). lia.
Qed.

(** The ownership scan stops on the last contour of the level that starts
    at or before the point: the offsets seen so far are at most [nearesti],
    the next one (if any) is beyond it. *)
Lemma owner_scan_owner (c : collection) (W : layout_facts c) (ms : nat)
    (f0 nearesti : Z) :
  nth_error (indices_of_first_pts c) ms = Some f0 -> 0 <= nearesti ->
  forall (n j : nat),
    (ms < j)%nat -> (j + n <= length (indices_of_first_pts c))%nat ->
    (forall f, nth_error (indices_of_first_pts c) (j - 1) = Some f ->
               f - f0 <= nearesti) ->
    exists idx : nat,
      owner_scan n (Z.of_nat j) (Z.of_nat ms) (indices_of_first_pts c) nearesti
      = Ok (Z.of_nat idx)
      /\ (j - 1 <= ms + idx < j + n)%nat
      /\ (forall f, nth_error (indices_of_first_pts c) (ms + idx) = Some f ->
                    f - f0 <= nearesti)
      /\ (forall f, (ms + idx + 1 < j + n)%nat ->
                    nth_error (indices_of_first_pts c) (ms + idx + 1) = Some f ->
                    nearesti < f - f0).
Proof.
  intros Hf0 Hnear. pose proof (lf_size_c c W) as Hc.
  pose proof (lf_size_p c W) as Hp.
  assert (Hf0pos : 0 <= f0).
  { destruct (read_in_bounds (nb_pt_per_c c) ms) as (m0 & Hm0 & _).
    - rewrite (lf_contours c W). apply nth_error_Some.
      rewrite Hf0; discriminate.
    - destruct (lf_contour c W ms f0 m0 Hf0 Hm0) as (H0 & _). exact H0. }
  assert (Hret : forall j : nat,
             (ms < j)%nat ->
             (j <= length (indices_of_first_pts c))%nat ->
             u32 (u32 (Z.of_nat j - 1) - Z.of_nat ms)
             = Z.of_nat (j - 1 - ms)).
  { intros j Hj Hjl. rewrite (u32_small (Z.of_nat j - 1)) by lia.
    rewrite u32_small; lia. }
  induction n as [|n IH]; intros j Hms Hlen Hprev.
  - exists (j - 1 - ms)%nat. simpl owner_scan. rewrite Hret by lia.
    replace (ms + (j - 1 - ms))%nat with (j - 1)%nat by lia.
    split; [reflexivity|]. split; [lia|]. split; [exact Hprev|].
    intros f Hlt; lia.
  - destruct (read_in_bounds (indices_of_first_pts c) j) as (f & Hf & Hrf);
      [lia|].
    destruct (read_in_bounds (nb_pt_per_c c) j) as (m & Hm & _);
      [rewrite (lf_contours c W); lia|].
    destruct (lf_contour c W j f m Hf Hm) as (Hfpos & Hm1 & Hfm).
    pose proof (firsts_increasing c W (j - ms) ms f0 f Hf0) as Hinc.
    replace (ms + (j - ms))%nat with j in Hinc by lia. specialize (Hinc Hf).
    rewrite owner_scan_S, Hrf, bind_ret, (read_nth _ _ _ Hf0), bind_ret.
    rewrite (u32_small (f - f0)) by lia.
    destruct (Z.gtb_spec (f - f0) nearesti) as [Hgt|Hle].
    + exists (j - 1 - ms)%nat. rewrite Hret by lia.
      replace (ms + (j - 1 - ms))%nat with (j - 1)%nat by lia.
      split; [reflexivity|]. split; [lia|]. split; [exact Hprev|].
      intros f' _ Hf'. replace (j - 1 + 1)%nat with j in Hf' by lia.
      rewrite Hf in Hf'. injection Hf' as <-. lia.
    + replace (Z.of_nat j + 1) with (Z.of_nat (S j)) by lia.
      destruct (IH (S j)) as (idx & Hrun & Hrange & Hlow & Hup); try lia.
      { intros f' Hf'. replace (S j - 1)%nat with j in Hf' by lia.
        rewrite Hf in Hf'. injection Hf' as <-. exact Hle. }
      exists idx. split; [exact Hrun|]. split; [lia|]. split; [exact Hlow|].
      intros f' Hlt. apply Hup. lia.
Qed.

(** X3. On a well-formed collection the answer names the contour of the
    level whose point range [[f, f + n)] holds the point that the helper
    picked, [r] places after the level's first point. *)
Lemma locate_nearest_contour_owner
    (pow : float -> float -> float) (level : Z) (c : collection)
    (target_x target_y : float) (nb : Z) :
  well_formedb c = true ->
  read (nb_c_per_l c) level = Ok nb ->
  1 <= nb ->
  exists (l start stop r : Z) (idx : nat) (f n : Z),
    read (l_i c) level = Ok l
    /\ dist_array_size l nb (nb_pt_per_c c) (indices_of_first_pts c)
       = Ok (l, l + nb, start, stop)
    /\ nearest_contour_index pow (y_value c) (y_value c) target_x target_y
         start stop = Ok r
    /\ locate_nearest_contour pow level c target_x target_y
       = Ok (Some (Z.of_nat idx))
    /\ nth_error (indices_of_first_pts c) (Z.to_nat l + idx) = Some f
    /\ nth_error (nb_pt_per_c c) (Z.to_nat l + idx) = Some n
    /\ f <= start + r < f + n.
Proof.
  intros Hwf Hlevel Hnb.
  pose proof (well_formedb_facts c Hwf) as W.
  pose proof (lf_size_c c W) as Hc. pose proof (lf_size_p c W) as Hp.
  destruct (read_Ok_inv _ _ _ Hlevel) as (Hl0 & Hk).
  destruct (read_in_bounds (l_i c) (Z.to_nat level)) as (l & Hl & Hrl).
  { rewrite (lf_levels c W). apply nth_error_Some. rewrite Hk; discriminate. }
  rewrite Z2Nat.id in Hrl by exact Hl0.
  destruct (lf_level c W _ l nb Hl Hk) as (Hlpos & _ & Hrange).
  assert (El : l = Z.of_nat (Z.to_nat l)) by lia.
  assert (Enb : nb = Z.of_nat (Z.to_nat nb)) by lia.
  revert Hrl Hrange El. generalize (Z.to_nat l) as ml.
  intros ml Hrl Hrange ->.
  revert Hlevel Hnb Hrange Enb. generalize (Z.to_nat nb) as mn.
  intros mn Hlevel Hnb Hrange ->. clear Hk.
  destruct (dist_array_size_wf c W ml mn)
    as (start & stop & fl & nl & Hsize & Hlt & Hstop & Hstart & Hfl & Hnl & Hend);
    try lia.
  destruct (nearest_contour_index_range pow (y_value c) (y_value c)
              target_x target_y start stop)
    as (r & Hnear & Hr); try lia.
  destruct mn as [|n']; [lia|].
  assert (Hscan :
            exists idx : nat,
              owner_scan (S n') (Z.of_nat ml) (Z.of_nat ml)
                (indices_of_first_pts c) r
              = Ok (Z.of_nat idx)
              /\ (idx < S n')%nat
              /\ (forall f, nth_error (indices_of_first_pts c) (ml + idx)
                            = Some f ->
                            f - Z.of_nat start <= r)
              /\ (forall f, (idx + 1 < S n')%nat ->
                            nth_error (indices_of_first_pts c) (ml + idx + 1)
                            = Some f ->
                            r < f - Z.of_nat start)).
  { rewrite owner_scan_S, (read_nth _ _ _ Hstart), !bind_ret.
    replace (u32 (Z.of_nat start - Z.of_nat start)) with 0
      by (rewrite Z.sub_diag; reflexivity).
    destruct (Z.gtb_spec 0 r) as [Hgt|_]; [lia|].
    replace (Z.of_nat ml + 1) with (Z.of_nat (S ml)) by lia.
    destruct (owner_scan_owner c W ml (Z.of_nat start) r Hstart
                (proj1 Hr) n' (S ml))
      as (idx & Hrun & Hrg & Hlow & Hup); try lia.
    { intros f Hf. replace (S ml - 1)%nat with ml in Hf by lia.
      rewrite Hstart in Hf. injection Hf as <-. lia. }
    exists idx. split; [exact Hrun|]. split; [lia|]. split; [exact Hlow|].
    intros f Hlt'. apply Hup. lia. }
  destruct Hscan as (idx & Hscan & Hidx & Hlow & Hup).
  destruct (read_in_bounds (indices_of_first_pts c) (ml + idx))
    as (f & Hf & _); [lia|].
  destruct (read_in_bounds (nb_pt_per_c c) (ml + idx))
    as (n & Hn & _); [rewrite (lf_contours c W); lia|].
  exists (Z.of_nat ml), (Z.of_nat start), (Z.of_nat stop), r, idx, f, n.
  rewrite Nat2Z.id.
  replace (Z.of_nat ml + Z.of_nat (S n')) with (Z.of_nat (ml + S n')) by lia.
  split; [exact Hrl|]. split; [exact Hsize|].
  split; [exact Hnear|]. split.
  { unfold locate_nearest_contour, index_from_nearest_path.
    rewrite Hlevel, bind_ret.
    destruct (Z.eqb_spec (Z.of_nat (S n')) 0) as [Hz|_]; [lia|].
    rewrite Hrl, bind_ret, Hsize, bind_ret.
    rewrite !to_ui_Ok, !bind_ret by lia.
    rewrite Hnear, bind_ret, to_ui_Ok, bind_ret by lia.
    replace (Z.to_nat (Z.of_nat (ml + S n') - Z.of_nat ml)) with (S n') by lia.
    rewrite Hscan, bind_ret. reflexivity. }
  split; [exact Hf|]. split; [exact Hn|].
  split; [specialize (Hlow f Hf); lia|].
  destruct (Nat.lt_ge_cases (idx + 1) (S n')) as [Hin|Hlast].
  - destruct (read_in_bounds (indices_of_first_pts c) (ml + idx + 1))
      as (f' & Hf' & _); [lia|].
    specialize (Hup f' Hin Hf').
    replace (ml + idx + 1)%nat with (S (ml + idx)) in Hf' by lia.
    pose proof (lf_next c W _ f n f' Hf Hn Hf'). lia.
  - replace (ml + S n' - 1)%nat with (ml + idx)%nat in Hfl, Hnl by lia.
    rewrite Hf in Hfl. rewrite Hn in Hnl.
    injection Hfl as <-. injection Hnl as <-. lia.
Qed.

(** C9. For a level index inside [nb_c_per_l], [index_from_nearest_path]
    returns Python's [None] (and neither an index nor an error) exactly when
    the level has zero contours. *)
Theorem index_from_nearest_path_absent_iff
    (pow : float -> float -> float) (level_index : Z)
    (l_i nb_c_per_l nb_pt_per_c indices_of_first_pts : list Z)
    (x_value y_value : list float) (xpt ypt : float) (nb_contour : Z) :
  read nb_c_per_l level_index = Ok nb_contour ->
  index_from_nearest_path pow level_index l_i nb_c_per_l nb_pt_per_c
    indices_of_first_pts x_value y_value xpt ypt = Ok None
  <-> nb_contour = 0.
Proof.
  intros Hlevel. unfold index_from_nearest_path.
  rewrite Hlevel, bind_ret.
  destruct (Z.eqb_spec nb_contour 0) as [Hz|Hnz].
  - split; [intros _; exact Hz | reflexivity].
  - split; [|intros Hz; contradiction].
    intros H.
    repeat (apply bind_Ok in H as (? & _ & H);
            repeat match type of H with
                   | (let '(_, _) := ?p in _) = _ => destruct p
                   end).
    discriminate H.
Qed.

Lemma index_from_nearest_path_absent_iff_witness :
  read [0; 2] 0 = Ok 0
  /\ (index_from_nearest_path pow_ieee 0 [0; 0] [0; 2] [3; 2] [0; 3]
        [0; 1; 2; 3; 4]%float [0; 0; 1; 1; 2]%float 1%float 1%float = Ok None
      <-> 0 = 0).
Proof.
  split; [reflexivity|].
  apply (index_from_nearest_path_absent_iff pow_ieee 0 [0; 0] [0; 2] [3; 2]
           [0; 3] [0; 1; 2; 3; 4]%float [0; 0; 1; 1; 2]%float 1%float 1%float 0).
  reflexivity.
Defined.

(** ** ContourIndex: what the layout invariants give *)

Lemma layout_invariantsb_sizes (c : collection) :
  layout_invariantsb c = true ->
  length (l_i c) = length (nb_c_per_l c)
  /\ length (nb_pt_per_c c) = length (indices_of_first_pts c)
  /\ Z.of_nat (length (indices_of_first_pts c)) < 2 ^ 32
  /\ Z.of_nat (length (y_value c)) < 2 ^ 32
  /\ (forall n, In n (nb_pt_per_c c) -> 0 <= n)
  /\ (forall f, In f (indices_of_first_pts c) -> 0 <= f).
Proof.
  unfold layout_invariantsb; intros H.
  repeat (apply andb_true_iff in H as [H ?]).
  split; [apply Nat.eqb_eq; assumption|].
  split; [apply Nat.eqb_eq; assumption|].
  split; [apply Z.ltb_lt; assumption|].
  split; [apply Z.ltb_lt; assumption|].
  split; intros z Hz.
  - match goal with
    | F : forallb _ (nb_pt_per_c c) = true |- _ =>
        rewrite forallb_forall in F; specialize (F z Hz)
    end.
    lia.
  - match goal with
    | F : forallb _ (indices_of_first_pts c) = true |- _ =>
        rewrite forallb_forall in F; specialize (F z Hz)
    end.
    lia.
Qed.

Lemma layout_invariantsb_level (c : collection) (k : nat) (l nb : Z) :
  layout_invariantsb c = true ->
  nth_error (l_i c) k = Some l -> nth_error (nb_c_per_l c) k = Some nb ->
  0 <= l /\ 0 <= nb /\ l + nb <= Z.of_nat (length (indices_of_first_pts c))
  /\ nth (Z.to_nat l) (indices_of_first_pts c) 0 + level_points c l nb
     <= Z.of_nat (length (y_value c)).
Proof.
  unfold layout_invariantsb; intros H Hl Hnb.
  apply andb_true_iff in H as [_ H].
  rewrite forallb_forall in H.
  specialize (H (l, nb) (nth_error_combine _ _ _ _ _ Hl Hnb)). simpl in H.
  lia.
Qed.

Lemma Zsum_nonneg (l : list Z) : (forall z, In z l -> 0 <= z) -> 0 <= Zsum l.
Proof.
  induction l as [|a l IH]; intros H; [simpl; lia|].
  change (Zsum (a :: l)) with (a + Zsum l).
  pose proof (H a (or_introl eq_refl)).
  assert (0 <= Zsum l) by (apply IH; intros z Hz; apply H; right; exact Hz).
  lia.
Qed.

Lemma In_firstn_skipn {A : Type} (n j : nat) (l : list A) (a : A) :
  In a (firstn n (skipn j l)) -> In a l.
Proof.
  intros H. rewrite <- (firstn_skipn j l). apply in_or_app; right.
  rewrite <- (firstn_skipn n (skipn j l)). apply in_or_app; left. exact H.
Qed.

(** The point count of [dist_array_size] over [n] contours from contour [j]
    on: the counts add up without wrap-around as long as the total fits
    [DTYPE_ui]. *)
Lemma count_loop_sum (counts : list Z) :
  (forall m, In m counts -> 0 <= m) ->
  forall (n j : nat) (acc : Z),
    (j + n <= length counts)%nat -> 0 <= acc ->
    acc + Zsum (firstn n (skipn j counts)) < 2 ^ 32 ->
    for_loop n (Z.of_nat j)
      (fun i_elt nb_pts => m <- read counts i_elt ;; Ok (u32 (nb_pts + m))) acc
    = Ok (acc + Zsum (firstn n (skipn j counts))).
Proof.
  intros Hpos. induction n as [|n IH]; intros j acc Hlen Hacc Hsum.
  - simpl. rewrite Z.add_0_r. reflexivity.
  - destruct (read_in_bounds counts j) as (m & Hm & Hr); [lia|].
    rewrite (skipn_nth j counts m Hm) in Hsum |- *.
    change (firstn (S n) (m :: skipn (S j) counts))
      with (m :: firstn n (skipn (S j) counts)) in Hsum |- *.
    change (Zsum (m :: firstn n (skipn (S j) counts)))
      with (m + Zsum (firstn n (skipn (S j) counts))) in Hsum |- *.
    pose proof (Hpos m (nth_error_In _ _ Hm)) as Hm0.
    assert (Hrest : 0 <= Zsum (firstn n (skipn (S j) counts))).
    { apply Zsum_nonneg. intros z Hz. apply Hpos.
      exact (In_firstn_skipn _ _ _ _ Hz). }
    rewrite for_loop_S; cbv beta. rewrite Hr, !bind_ret.
    rewrite u32_small by lia.
    replace (Z.of_nat j + 1) with (Z.of_nat (S j)) by lia.
    rewrite (IH (S j) (acc + m)) by lia.
    f_equal; lia.
Qed.

(** The scan of [nearest_contour_index] over a range that may be empty:
    the first point is read before the loop, and the offset returned is that
    of a point of the range, or 0. *)
Lemma nearest_contour_index_defined (pow : float -> float -> float)
    (ys : list float) (xpt ypt : float) (start end_ : nat) :
  (start <= end_)%nat -> (start < length ys)%nat -> (end_ <= length ys)%nat ->
  Z.of_nat (length ys) < 2 ^ 32 ->
  exists r,
    nearest_contour_index pow ys ys xpt ypt (Z.of_nat start) (Z.of_nat end_)
    = Ok r
    /\ 0 <= r < 2 ^ 32.
Proof.
  intros Hle Hs He Hsz. unfold nearest_contour_index, for_from.
  destruct (read_in_bounds ys start) as (y0 & _ & Hry); [lia|].
  rewrite Hry, !bind_ret.
  destruct (nearest_loop pow ys ys xpt ypt (Z.of_nat start)
              (Z.of_nat end_ + 1)
              (Z.to_nat (Z.of_nat end_ - Z.of_nat start)) start
              (Z.of_nat start) (sq_dist pow y0 y0 xpt ypt))
    as (i_ref & d & Hrun & Hrange); try lia.
  rewrite Hrun, bind_ret.
  exists (u32 (i_ref - Z.of_nat start)).
  split; [reflexivity|]. rewrite u32_small; lia.
Qed.

Lemma nth_error_combine_inv {A B : Type} (l : list A) :
  forall (m : list B) (k : nat) (a : A) (b : B),
    nth_error (combine l m) k = Some (a, b) ->
    nth_error l k = Some a /\ nth_error m k = Some b.
Proof.
  induction l as [|x l IH]; intros [|y m] [|k] a b H; simpl in H;
    try discriminate.
  - injection H as -> ->. split; reflexivity.
  - apply (IH m k a b H).
Qed.

(** The non-empty contours of a well-formed collection, stored back to
    back, meet the layout invariants. *)
Lemma back_to_back_non_decreasing (firsts : list Z) :
  forall counts : list Z,
    length counts = length firsts ->
    back_to_back firsts counts = true ->
    (forall n, In n counts -> 0 <= n) ->
    non_decreasing firsts = true.
Proof.
  induction firsts as [|f0 ft IH]; intros counts Hlen Hb Hpos; [reflexivity|].
  destruct ft as [|f1 ft']; [reflexivity|].
  destruct counts as [|n0 nt]; [discriminate|].
  simpl in Hb. apply andb_true_iff in Hb as [H1 H2].
  change (non_decreasing (f0 :: f1 :: ft'))
    with ((f0 <=? f1) && non_decreasing (f1 :: ft')).
  apply andb_true_iff. split.
  - pose proof (Hpos n0 (or_introl eq_refl)). lia.
  - apply (IH nt); [simpl in Hlen |- *; lia | exact H2 |].
    intros n Hn. apply Hpos. right; exact Hn.
Qed.

Lemma level_span (c : collection) (W : layout_facts c) :
  forall (n j : nat) (fj : Z),
    nth_error (indices_of_first_pts c) j = Some fj ->
    fj + Zsum (firstn n (skipn j (nb_pt_per_c c)))
    <= Z.of_nat (length (y_value c)).
Proof.
  induction n as [|n IH]; intros j fj Hfj;
    (assert (Hj : (j < length (indices_of_first_pts c))%nat)
      by (apply nth_error_Some; rewrite Hfj; discriminate));
    (destruct (read_in_bounds (nb_pt_per_c c) j) as (m & Hm & _);
     [rewrite (lf_contours c W); exact Hj|]);
    destruct (lf_contour c W j fj m Hfj Hm) as (_ & Hm1 & Hend).
  - simpl. lia.
  - rewrite (skipn_nth j _ m Hm).
    change (Zsum (firstn (S n) (m :: skipn (S j) (nb_pt_per_c c))))
      with (m + Zsum (firstn n (skipn (S j) (nb_pt_per_c c)))).
    destruct (nth_error (indices_of_first_pts c) (S j)) as [f'|] eqn:Hf'.
    + pose proof (lf_next c W j fj m f' Hfj Hm Hf') as Hnext.
      specialize (IH (S j) f' Hf'). lia.
    + apply nth_error_None in Hf'.
      rewrite skipn_all2 by (rewrite (lf_contours c W); exact Hf').
      rewrite firstn_nil. simpl. lia.
Qed.

Lemma well_formedb_layout_invariants (c : collection) :
  well_formedb c = true -> layout_invariantsb c = true.
Proof.
  intros Hwf. pose proof (well_formedb_facts c Hwf) as W.
  assert (Hcounts : forall n, In n (nb_pt_per_c c) -> 0 <= n).
  { intros n Hn. destruct (In_nth_error _ _ Hn) as (j & Hj).
    destruct (read_in_bounds (indices_of_first_pts c) j) as (f & Hf & _).
    - rewrite <- (lf_contours c W). apply nth_error_Some.
      rewrite Hj; discriminate.
    - destruct (lf_contour c W j f n Hf Hj) as (_ & H1 & _). lia. }
  assert (Hfirsts : forall f, In f (indices_of_first_pts c) -> 0 <= f).
  { intros f Hin. destruct (In_nth_error _ _ Hin) as (j & Hj).
    destruct (read_in_bounds (nb_pt_per_c c) j) as (n & Hn & _).
    - rewrite (lf_contours c W). apply nth_error_Some.
      rewrite Hj; discriminate.
    - destruct (lf_contour c W j f n Hj Hn) as (H0 & _). exact H0. }
  unfold well_formedb in Hwf.
  repeat (apply andb_true_iff in Hwf as [Hwf ?]).
  unfold layout_invariantsb.
  repeat (apply andb_true_iff; split); try assumption.
  - apply forallb_forall. intros n Hn. apply Z.leb_le. exact (Hcounts n Hn).
  - apply forallb_forall. intros f Hf. apply Z.leb_le. exact (Hfirsts f Hf).
  - apply (back_to_back_non_decreasing _ (nb_pt_per_c c));
      [exact (lf_contours c W) | assumption | exact Hcounts].
  - apply forallb_forall. intros [l nb] Hin.
    destruct (In_nth_error _ _ Hin) as (k & Hk).
    pose proof (nth_error_combine_inv _ _ _ _ _ Hk) as Hl.
    destruct Hl as [Hl Hnb].
    destruct (lf_level c W k l nb Hl Hnb) as (Hl0 & Hnb0 & Hrange).
    assert (Hspan : nth (Z.to_nat l) (indices_of_first_pts c) 0
                    + level_points c l nb <= Z.of_nat (length (y_value c))).
    { destruct (nth_error (indices_of_first_pts c) (Z.to_nat l)) as [f|] eqn:Hf.
      - rewrite (nth_error_nth _ _ 0 Hf).
        apply (level_span c W (Z.to_nat nb) (Z.to_nat l) f Hf).
      - pose proof Hf as Hnone. apply nth_error_None in Hnone.
        rewrite (nth_overflow _ 0 Hnone).
        unfold level_points.
        rewrite skipn_all2 by (rewrite (lf_contours c W); exact Hnone).
        rewrite firstn_nil. simpl. lia. }
    apply andb_true_iff; split; [|apply Z.leb_le; exact Hspan].
    apply andb_true_iff; split; [|apply Z.leb_le; exact Hrange].
    apply andb_true_iff; split; apply Z.leb_le; assumption.
Qed.

(** C10. On a collection that meets the layout invariants (contours may be
    empty) and a level with at least one contour, a number returned by
    [index_from_nearest_path] lies between [0] and [nb_c_per_l[level] - 1].
    There is such a number when the level's first offset [f] is the place of
    a point; otherwise (an empty level at the end of the buffers) the first
    read of the scan is outside the buffer. *)
Theorem locate_nearest_contour_index_range
    (pow : float -> float -> float) (level : Z) (c : collection)
    (target_x target_y : float) (nb : Z) :
  layout_invariantsb c = true ->
  read (nb_c_per_l c) level = Ok nb ->
  1 <= nb ->
  (forall idx,
      locate_nearest_contour pow level c target_x target_y = Ok (Some idx) ->
      0 <= idx <= nb - 1)
  /\ exists l f,
       read (l_i c) level = Ok l
       /\ read (indices_of_first_pts c) l = Ok f
       /\ (f < Z.of_nat (length (y_value c)) ->
           exists idx,
             locate_nearest_contour pow level c target_x target_y
             = Ok (Some idx))
       /\ (Z.of_nat (length (y_value c)) <= f ->
           locate_nearest_contour pow level c target_x target_y = Undefined).
Proof.
  intros Hlay Hlevel Hnb.
  destruct (layout_invariantsb_sizes c Hlay)
    as (Hlev & Hcon & Hc & Hp & Hcounts & Hfirsts).
  destruct (read_Ok_inv _ _ _ Hlevel) as (Hl0 & Hk).
  destruct (read_in_bounds (l_i c) (Z.to_nat level)) as (l & Hl & Hrl).
  { rewrite Hlev. apply nth_error_Some. rewrite Hk; discriminate. }
  rewrite Z2Nat.id in Hrl by exact Hl0.
  destruct (layout_invariantsb_level c _ l nb Hlay Hl Hk)
    as (Hlpos & _ & Hrange & Hspan).
  destruct (read_in_bounds (indices_of_first_pts c) (Z.to_nat l))
    as (f & Hf & Hrf); [lia|].
  rewrite Z2Nat.id in Hrf by exact Hlpos.
  rewrite (nth_error_nth _ _ 0 Hf) in Hspan.
  pose proof (Hfirsts f (nth_error_In _ _ Hf)) as Hf0.
  assert (Hpts : 0 <= level_points c l nb).
  { apply Zsum_nonneg. intros z Hz. apply Hcounts.
    exact (In_firstn_skipn _ _ _ _ Hz). }
  assert (Hsize :
            dist_array_size l nb (nb_pt_per_c c) (indices_of_first_pts c)
            = Ok (l, l + nb, f, f + level_points c l nb)).
  { unfold dist_array_size, for_from. cbv zeta.
    rewrite (u32_small (l + nb)) by lia.
    replace (l + nb - l) with nb by lia.
    replace l with (Z.of_nat (Z.to_nat l)) at 1 by lia.
    rewrite (count_loop_sum (nb_pt_per_c c) Hcounts (Z.to_nat nb) (Z.to_nat l) 0)
      by (fold (level_points c l nb); lia).
    fold (level_points c l nb).
    rewrite bind_ret, Hrf, bind_ret, Z.add_0_l. reflexivity. }
  assert (Hscan : forall r, 0 <= r ->
            exists idx,
              owner_scan (Z.to_nat (l + nb - l)) l l (indices_of_first_pts c) r
              = Ok idx /\ 0 <= idx <= nb - 1).
  { intros r Hr. replace (l + nb - l) with nb by lia.
    destruct (owner_scan_from_start (indices_of_first_pts c) (Z.to_nat l)
                (Z.to_nat nb) r)
      as (idx & Hrun & Hidx); try lia.
    rewrite !Z2Nat.id in Hrun by lia.
    exists idx. split; [exact Hrun | lia]. }
  assert (Hrun :
            locate_nearest_contour pow level c target_x target_y
            = (r <- nearest_contour_index pow (y_value c) (y_value c)
                      target_x target_y f (f + level_points c l nb) ;;
               nearesti <- to_ui r ;;
               idx <- owner_scan (Z.to_nat (l + nb - l)) l l
                        (indices_of_first_pts c) nearesti ;;
               Ok (Some idx))).
  { unfold locate_nearest_contour, index_from_nearest_path.
    rewrite Hlevel, bind_ret.
    destruct (Z.eqb_spec nb 0) as [Hz|_]; [lia|].
    rewrite Hrl, bind_ret, Hsize, bind_ret.
    rewrite !to_ui_Ok, !bind_ret by lia. reflexivity. }
  assert (Hin : f < Z.of_nat (length (y_value c)) ->
            exists idx,
              locate_nearest_contour pow level c target_x target_y
              = Ok (Some idx)
              /\ 0 <= idx <= nb - 1).
  { intros Hlt.
    destruct (nearest_contour_index_defined pow (y_value c) target_x target_y
                (Z.to_nat f) (Z.to_nat (f + level_points c l nb)))
      as (r & Hnear & Hr); try lia.
    rewrite !Z2Nat.id in Hnear by lia.
    destruct (Hscan r (proj1 Hr)) as (idx & Hown & Hidx).
    exists idx. split; [|exact Hidx].
    rewrite Hrun, Hnear, bind_ret, to_ui_Ok, bind_ret by exact Hr.
    rewrite Hown, bind_ret. reflexivity. }
  assert (Hout : Z.of_nat (length (y_value c)) <= f ->
            locate_nearest_contour pow level c target_x target_y = Undefined).
  { intros Hge. rewrite Hrun. unfold nearest_contour_index.
    replace f with (Z.of_nat (Z.to_nat f)) at 1 by lia.
    rewrite read_short by lia. reflexivity. }
  split.
  - intros idx Hidx.
    destruct (Z.lt_ge_cases f (Z.of_nat (length (y_value c)))) as [Hlt|Hge].
    + destruct (Hin Hlt) as (idx' & Hrun' & Hrange').
      rewrite Hrun' in Hidx. injection Hidx as <-. exact Hrange'.
    + rewrite (Hout Hge) in Hidx. discriminate.
  - exists l, f. split; [exact Hrl|]. split; [exact Hrf|].
    split; [|exact Hout].
    intros Hlt. destruct (Hin Hlt) as (idx & Hrun' & _).
    exists idx; exact Hrun'.
Qed.

(** A level whose first contour is empty: the two contours start at the
    same offset, and the point picked belongs to the second one. *)
Lemma locate_nearest_contour_index_range_witness :
  let c := {| l_i := [0; 2]; nb_c_per_l := [2; 1]; nb_pt_per_c := [0; 3; 2];
              indices_of_first_pts := [0; 0; 3];
              x_value := [0; 1; 2; 3; 4]%float;
              y_value := [0; 1; 2; 3; 4]%float |} in
  layout_invariantsb c = true
  /\ well_formedb c = false
  /\ read (nb_c_per_l c) 0 = Ok 2
  /\ 1 <= 2
  /\ locate_nearest_contour pow_ieee 0 c 4%float 1%float = Ok (Some 1)
  /\ 0 <= 1 <= 2 - 1.
Proof.
  cbv zeta. split; [reflexivity|]. split; [reflexivity|].
  split; [reflexivity|]. split; [lia|]. split; [reflexivity|].
  apply (locate_nearest_contour_index_range pow_ieee 0
           {| l_i := [0; 2]; nb_c_per_l := [2; 1]; nb_pt_per_c := [0; 3; 2];
              indices_of_first_pts := [0; 0; 3];
              x_value := [0; 1; 2; 3; 4]%float;
              y_value := [0; 1; 2; 3; 4]%float |} 4%float 1%float 2);
    [reflexivity | reflexivity | lia | reflexivity].
Defined.

(** An empty level whose offset is the end of the buffers meets the layout
    invariants; the call then reads [y_value] past its end. *)
Example locate_nearest_contour_empty_level_at_end :
  let c := {| l_i := [0; 1]; nb_c_per_l := [1; 1]; nb_pt_per_c := [2; 0];
              indices_of_first_pts := [0; 2];
              x_value := [0; 1]%float; y_value := [0; 1]%float |} in
  layout_invariantsb c = true
  /\ locate_nearest_contour pow_ieee 0 c 0 0 = Ok (Some 0)
  /\ locate_nearest_contour pow_ieee 1 c 0 0 = Undefined.
Proof. cbv zeta. repeat split; reflexivity. Qed.

(** The answer of [index_from_nearest_path] does not depend on the
    abscissas at all. *)
Lemma index_from_nearest_path_x_unused
    (pow : float -> float -> float) (level_index : Z)
    (l_i nb_c_per_l nb_pt_per_c indices_of_first_pts : list Z)
    (x_value x_value' y_value : list float) (xpt ypt : float) :
  index_from_nearest_path pow level_index l_i nb_c_per_l nb_pt_per_c
    indices_of_first_pts x_value y_value xpt ypt
  = index_from_nearest_path pow level_index l_i nb_c_per_l nb_pt_per_c
      indices_of_first_pts x_value' y_value xpt ypt.
Proof. reflexivity. Qed.

(** C1. A level of two one-point contours, [(0, 1)] and [(100, 0)], and the
    target [(0, 0)]: the first point is the nearer one (squared distances 1
    and 10000), yet the answer is contour 1, because the distance is taken
    over the ordinates alone. *)
Theorem index_from_nearest_path_nearest_by_y_only :
  let c := {| l_i := [0]; nb_c_per_l := [2]; nb_pt_per_c := [1; 1];
              indices_of_first_pts := [0; 1];
              x_value := [0; 100]%float; y_value := [1; 0]%float |} in
  well_formedb c = true
  /\ sq_dist pow_ieee 0 1 0 0 = 1%float
  /\ sq_dist pow_ieee 100 0 0 0 = 10000%float
  /\ nearest_contour_index pow_ieee (x_value c) (y_value c) 0 0 0 2 = Ok 0
  /\ locate_nearest_contour pow_ieee 0 c 0 0 = Ok (Some 1).
Proof. cbv zeta. repeat split; vm_compute; reflexivity. Qed.

(** ** PolygonContainment *)

Lemma s32_add_l (a b : Z) : s32 (s32 a + b) = s32 (a + b).
Proof.
  unfold s32. f_equal.
  replace ((a + 2 ^ 31) mod 2 ^ 32 - 2 ^ 31 + b + 2 ^ 31)
    with ((a + 2 ^ 31) mod 2 ^ 32 + b) by lia.
  rewrite Zplus_mod_idemp_l. f_equal; lia.
Qed.

Lemma Zsum_cons (a : Z) (l : list Z) : Zsum (a :: l) = a + Zsum l.
Proof. reflexivity. Qed.

Lemma Zsum_app (l m : list Z) : Zsum (l ++ m) = Zsum l + Zsum m.
Proof.
  induction l as [|a l IH]; simpl; [reflexivity|].
  unfold Zsum in *; simpl; rewrite IH; lia.
Qed.

Lemma rot1_length {A : Type} (l : list A) : length (rot1 l) = length l.
Proof.
  destruct l as [|a tl]; simpl; [reflexivity|].
  rewrite length_app; simpl; lia.
Qed.

(** Vertex [i] of the rotated ring is the successor of vertex [i]. *)
Lemma rot1_nth {A : Type} (l : list A) (i : nat) :
  (i < length l)%nat ->
  nth_error (rot1 l) i
  = if (S i =? length l)%nat then nth_error l 0 else nth_error l (S i).
Proof.
  destruct l as [|a tl]; simpl; intros Hi; [lia|].
  destruct (Nat.eqb_spec i (length tl)) as [->|Hne].
  - rewrite nth_error_app2 by lia. rewrite Nat.sub_diag; reflexivity.
  - rewrite nth_error_app1 by lia. reflexivity.
Qed.

Lemma combine_snoc {A B : Type} (l : list A) :
  forall (m : list B) (a : A) (b : B),
    length l = length m ->
    combine (l ++ [a]) (m ++ [b]) = combine l m ++ [(a, b)].
Proof.
  induction l as [|x l IH]; intros [|y m] a b H; simpl in *; try discriminate;
    [reflexivity|].
  injection H as H. rewrite (IH m a b H). reflexivity.
Qed.

Lemma combine_rot1 {A B : Type} (l : list A) (m : list B) :
  length l = length m -> combine (rot1 l) (rot1 m) = rot1 (combine l m).
Proof.
  destruct l as [|a l], m as [|b m]; simpl; intros H; try discriminate;
    [reflexivity|].
  injection H as H.
  apply combine_snoc; exact H.
Qed.

Lemma edges_rot1 {A : Type} (ring : list A) :
  edges (rot1 ring) = rot1 (edges ring).
Proof.
  unfold edges. apply combine_rot1. symmetry; apply rot1_length.
Qed.

Lemma Zsum_map_rot1 {A : Type} (f : A -> Z) (l : list A) :
  Zsum (map f (rot1 l)) = Zsum (map f l).
Proof.
  destruct l as [|a tl]; simpl; [reflexivity|].
  rewrite map_app, Zsum_app. unfold Zsum; simpl; lia.
Qed.

Lemma firstn_nth {A : Type} (k : nat) :
  forall (l : list A) (x : A),
    nth_error l k = Some x -> firstn (S k) l = firstn k l ++ [x].
Proof.
  induction k as [|k IH]; intros [|a l] x H; simpl in H; try discriminate.
  - injection H as ->; reflexivity.
  - change (firstn (S (S k)) (a :: l)) with (a :: firstn (S k) l).
    rewrite (IH l x H). reflexivity.
Qed.

Lemma rotate_S {A : Type} (k : nat) (l : list A) :
  (k < length l)%nat -> rotate (S k) l = rot1 (rotate k l).
Proof.
  intros Hk.
  destruct (nth_error l k) as [x|] eqn:E;
    [|apply nth_error_None in E; lia].
  unfold rotate.
  rewrite (firstn_nth k l x E), (skipn_nth k l x E).
  simpl. rewrite app_assoc. reflexivity.
Qed.

Lemma rotate_length {A : Type} (k : nat) (l : list A) :
  length (rotate k l) = length l.
Proof.
  unfold rotate. rewrite length_app, length_skipn, length_firstn. lia.
Qed.

Lemma rotate_all {A : Type} (k : nat) (l : list A) :
  (length l <= k)%nat -> rotate k l = l.
Proof.
  intros H. unfold rotate.
  rewrite skipn_all2 by exact H. rewrite firstn_all2 by exact H. reflexivity.
Qed.

(** One pass of the edge loop adds the turn of the edge it visits. *)
Lemma winding_step_turn (x_test y_test : float) (ring : list (float * float))
    (i : nat) (cur next : float * float) (t : Z) :
  Z.of_nat (length ring) < 2 ^ 32 ->
  nth_error ring i = Some cur ->
  nth_error (rot1 ring) i = Some next ->
  winding_step x_test y_test ring (Z.of_nat (length ring)) (Z.of_nat i) (s32 t)
  = Ok (s32 (t + edge_turn x_test y_test (cur, next))).
Proof.
  intros Hsz Hcur Hnext.
  assert (Hi : (i < length ring)%nat)
    by (apply nth_error_Some; rewrite Hcur; discriminate).
  rewrite (rot1_nth ring i Hi) in Hnext.
  unfold winding_step. rewrite (u32_small (Z.of_nat i + 1)) by lia.
  assert (Hread :
            (if Z.of_nat i + 1 =? Z.of_nat (length ring) then read ring 0
             else read ring (Z.of_nat i + 1)) = Ok next).
  { destruct (Nat.eqb_spec (S i) (length ring)) as [He|Hne].
    - destruct (Z.eqb_spec (Z.of_nat i + 1) (Z.of_nat (length ring))); [|lia].
      apply (read_nth ring 0 next Hnext).
    - destruct (Z.eqb_spec (Z.of_nat i + 1) (Z.of_nat (length ring))); [lia|].
      replace (Z.of_nat i + 1) with (Z.of_nat (S i)) by lia.
      apply (read_nth ring (S i) next Hnext). }
  rewrite Hread, bind_ret. destruct next as [x_next y_next].
  rewrite (read_nth ring i cur Hcur), bind_ret. destruct cur as [x_cur y_cur].
  unfold edge_turn.
  destruct (y_cur <=? y_test)%float.
  - destruct (y_test <? y_next)%float; simpl andb.
    + destruct (is_left x_cur y_cur x_next y_next x_test y_test).
      * rewrite s32_add_l; reflexivity.
      * rewrite Z.add_0_r; reflexivity.
    + rewrite Z.add_0_r; reflexivity.
  - destruct (y_next <=? y_test)%float; simpl andb.
    + destruct (is_left x_cur y_cur x_next y_next x_test y_test); simpl negb.
      * rewrite Z.add_0_r; reflexivity.
      * change (s32 t - 1) with (s32 t + -1). rewrite s32_add_l; reflexivity.
    + rewrite Z.add_0_r; reflexivity.
Qed.

Lemma winding_loop (x_test y_test : float) (ring : list (float * float)) :
  Z.of_nat (length ring) < 2 ^ 32 ->
  forall (n i : nat) (t : Z),
    (i + n = length ring)%nat ->
    for_loop n (Z.of_nat i)
      (winding_step x_test y_test ring (Z.of_nat (length ring))) (s32 t)
    = Ok (s32 (t + Zsum (map (edge_turn x_test y_test)
                           (skipn i (edges ring))))).
Proof.
  intros Hsz. induction n as [|n IH]; intros i t Hlen.
  - rewrite skipn_all2.
    + simpl. rewrite Z.add_0_r. reflexivity.
    + unfold edges. rewrite length_combine, rot1_length. lia.
  - destruct (nth_error ring i) as [cur|] eqn:Ecur;
      [|apply nth_error_None in Ecur; lia].
    destruct (nth_error (rot1 ring) i) as [next|] eqn:Enext;
      [|apply nth_error_None in Enext; rewrite rot1_length in Enext; lia].
    assert (Hedge : nth_error (edges ring) i = Some (cur, next)).
    { unfold edges. clear - Ecur Enext.
      revert i Ecur Enext. generalize (rot1 ring) as m.
      induction ring as [|a l IHl]; intros m [|i] Hc Hn; simpl in *;
        try discriminate; destruct m as [|b m]; simpl in *; try discriminate.
      - injection Hc as ->; injection Hn as ->; reflexivity.
      - apply (IHl m i Hc Hn). }
    rewrite for_loop_S, (winding_step_turn _ _ _ _ _ _ _ Hsz Ecur Enext), bind_ret.
    replace (Z.of_nat i + 1) with (Z.of_nat (S i)) by lia.
    rewrite (IH (S i)) by lia.
    rewrite (skipn_nth i (edges ring) _ Hedge), map_cons, Zsum_cons.
    f_equal; f_equal; lia.
Qed.

(** The winding number is the wrapped sum of the turns of the ring's
    edges. *)
Lemma winding_number_poly_sum (x_test y_test : float)
    (ring : list (float * float)) :
  Z.of_nat (length ring) < 2 ^ 32 ->
  winding_number_poly x_test y_test ring
  = Ok (s32 (Zsum (map (edge_turn x_test y_test) (edges ring)))).
Proof.
  intros Hsz. unfold winding_number_poly, for_from.
  rewrite u32_small by lia. rewrite Z.sub_0_r, Nat2Z.id.
  change 0 with (s32 0) at 2. change 0 with (Z.of_nat 0) at 1.
  rewrite (winding_loop x_test y_test ring Hsz (length ring) 0 0) by lia.
  reflexivity.
Qed.

(** C8. The winding number of a ring does not change when the ring is
    started at another of its vertices. *)
Theorem winding_number_poly_rotate (x_test y_test : float)
    (xy_poly : list (float * float)) (k : nat) :
  Z.of_nat (length xy_poly) < 2 ^ 32 ->
  winding_number_poly x_test y_test (rotate k xy_poly)
  = winding_number_poly x_test y_test xy_poly.
Proof.
  intros Hsz.
  rewrite !winding_number_poly_sum by (rewrite ?rotate_length; exact Hsz).
  do 2 f_equal.
  induction k as [|k IH].
  - unfold rotate; simpl. rewrite app_nil_r. reflexivity.
  - destruct (Nat.lt_ge_cases k (length xy_poly)) as [Hlt|Hge].
    + rewrite (rotate_S k xy_poly Hlt), edges_rot1, Zsum_map_rot1. exact IH.
    + rewrite rotate_all by lia. reflexivity.
Qed.

Lemma winding_number_poly_rotate_witness :
  Z.of_nat (length [(0, 0); (10, 0); (10, 10); (0, 10)]%float) < 2 ^ 32
  /\ winding_number_poly 5 5
       (rotate 1 [(0, 0); (10, 0); (10, 10); (0, 10)]%float)
     = winding_number_poly 5 5 [(0, 0); (10, 0); (10, 10); (0, 10)]%float.
Proof.
  split; [simpl; lia|].
  apply (winding_number_poly_rotate 5 5
           [(0, 0); (10, 0); (10, 10); (0, 10)]%float 1).
  simpl; lia.
Defined.

(** ** GeoDistance *)

Lemma set_nth_app {A : Type} (pre : list A) (x : A) (post : list A) (v : A) :
  set_nth (pre ++ x :: post) (length pre) v = Some (pre ++ v :: post).
Proof.
  induction pre as [|a pre IH]; simpl; [reflexivity|].
  rewrite IH; reflexivity.
Qed.

Lemma write_app {A : Type} (pre : list A) (x : A) (post : list A) (v : A)
    (i : nat) :
  i = length pre -> write (pre ++ x :: post) (Z.of_nat i) v = Ok (pre ++ v :: post).
Proof.
  intros ->. unfold write.
  destruct (Z.ltb_spec (Z.of_nat (length pre)) 0) as [Hneg|_]; [lia|].
  rewrite Nat2Z.id, set_nth_app. reflexivity.
Qed.

Lemma read_app {A : Type} (pre : list A) (x : A) (post : list A) (i : nat) :
  i = length pre -> read (pre ++ x :: post) (Z.of_nat i) = Ok x.
Proof.
  intros ->. apply read_nth.
  rewrite nth_error_app2 by lia. rewrite Nat.sub_diag. reflexivity.
Qed.

Lemma read_default {A : Type} (buf : list A) (i : nat) (d : A) :
  (i < length buf)%nat -> read buf (Z.of_nat i) = Ok (nth i buf d).
Proof. intros H. apply read_nth, nth_error_nth'; exact H. Qed.

Section GeoDistanceFacts.

Variables sin cos : float -> float.
Variable atan2 : float -> float -> float.
Variable pow : float -> float -> float.
Variables lon0 lat0 lon1 lat1 : list float.

(** The cell [(i, j)] of the table of distances. *)
Local Notation "'cell'" := (distance_at sin cos atan2 pow lon0 lat0 lon1 lat1).

Lemma distance_vector_step_at (i : nat) (pre : list float) (x : float)
    (post : list float) :
  (i < length lon0)%nat -> (i < length lat0)%nat ->
  (i < length lon1)%nat -> (i < length lat1)%nat ->
  i = length pre ->
  distance_vector_step sin cos atan2 pow lon0 lat0 lon1 lat1 (Z.of_nat i)
    (pre ++ x :: post)
  = Ok (pre ++ cell i i :: post).
Proof.
  intros H0 H1 H2 H3 Hpre. unfold distance_vector_step.
  rewrite (read_default lat1 i 0%float H3), bind_ret.
  rewrite (read_default lat0 i 0%float H1), bind_ret.
  rewrite (read_default lon1 i 0%float H2), bind_ret.
  rewrite (read_default lon0 i 0%float H0), bind_ret.
  cbv zeta. rewrite (write_app pre x post _ i Hpre). reflexivity.
Qed.

Lemma distance_vector_loop :
  forall (n i : nat) (pre rest : list float),
    i = length pre -> (n <= length rest)%nat ->
    (i + n <= length lon0)%nat -> (i + n <= length lat0)%nat ->
    (i + n <= length lon1)%nat -> (i + n <= length lat1)%nat ->
    for_loop n (Z.of_nat i)
      (distance_vector_step sin cos atan2 pow lon0 lat0 lon1 lat1)
      (pre ++ rest)
    = Ok (pre ++ map (fun k => cell k k) (seq i n) ++ skipn n rest).
Proof.
  induction n as [|n IH]; intros i pre rest Hpre Hrest H0 H1 H2 H3.
  - reflexivity.
  - destruct rest as [|x rest]; simpl in Hrest; [lia|].
    rewrite for_loop_S, distance_vector_step_at, bind_ret by lia.
    replace (Z.of_nat i + 1) with (Z.of_nat (S i)) by lia.
    change (pre ++ cell i i :: rest) with (pre ++ [cell i i] ++ rest).
    rewrite app_assoc.
    rewrite (IH (S i)) by (rewrite ?length_app; simpl; lia).
    rewrite <- app_assoc. reflexivity.
Qed.

(** [distance_vector] fills the first [length lon0] cells of [dist] and
    looks at no length but that of [lon0]. *)
Lemma distance_vector_prefix (dist : list float) :
  Z.of_nat (length lon0) < 2 ^ 32 ->
  (length lon0 <= length lat0)%nat -> (length lon0 <= length lon1)%nat ->
  (length lon0 <= length lat1)%nat -> (length lon0 <= length dist)%nat ->
  distance_vector sin cos atan2 pow lon0 lat0 lon1 lat1 dist
  = Ok (map (fun k => cell k k) (seq 0 (length lon0))
        ++ skipn (length lon0) dist).
Proof.
  intros Hsz H1 H2 H3 Hd. unfold distance_vector, for_from.
  rewrite u32_small by lia. rewrite Z.sub_0_r, Nat2Z.id.
  apply (distance_vector_loop (length lon0) 0 [] dist); simpl; lia.
Qed.

Lemma distance_matrix_step_at (i j : nat) (pre : list (list float))
    (rpre : list float) (x : float) (rpost : list float)
    (post : list (list float)) :
  (i < length lon0)%nat -> (i < length lat0)%nat ->
  (j < length lon1)%nat -> (j < length lat1)%nat ->
  i = length pre -> j = length rpre ->
  distance_matrix_step sin cos atan2 pow lon0 lat0 lon1 lat1
    (Z.of_nat i) (Z.of_nat j) (pre ++ (rpre ++ x :: rpost) :: post)
  = Ok (pre ++ (rpre ++ cell i j :: rpost) :: post).
Proof.
  intros H0 H1 H2 H3 Hpre Hrpre. unfold distance_matrix_step.
  rewrite (read_default lat1 j 0%float H3), bind_ret.
  rewrite (read_default lat0 i 0%float H1), bind_ret.
  rewrite (read_default lon1 j 0%float H2), bind_ret.
  rewrite (read_default lon0 i 0%float H0), bind_ret.
  cbv zeta. unfold write2.
  rewrite (read_app pre _ post i Hpre), bind_ret.
  rewrite (write_app rpre x rpost _ j Hrpre), bind_ret.
  rewrite (write_app pre _ post _ i Hpre). reflexivity.
Qed.

Lemma distance_matrix_inner_loop (i : nat) (pre post : list (list float)) :
  (i < length lon0)%nat -> (i < length lat0)%nat -> i = length pre ->
  forall (n j : nat) (rpre rrest : list float),
    j = length rpre -> (n <= length rrest)%nat ->
    (j + n <= length lon1)%nat -> (j + n <= length lat1)%nat ->
    for_loop n (Z.of_nat j)
      (distance_matrix_step sin cos atan2 pow lon0 lat0 lon1 lat1 (Z.of_nat i))
      (pre ++ (rpre ++ rrest) :: post)
    = Ok (pre ++ (rpre ++ map (cell i) (seq j n) ++ skipn n rrest) :: post).
Proof.
  intros H0 H1 Hpre.
  induction n as [|n IH]; intros j rpre rrest Hrpre Hrest H2 H3.
  - reflexivity.
  - destruct rrest as [|x rrest]; simpl in Hrest; [lia|].
    rewrite for_loop_S, distance_matrix_step_at, bind_ret by lia.
    replace (Z.of_nat j + 1) with (Z.of_nat (S j)) by lia.
    change (rpre ++ cell i j :: rrest) with (rpre ++ [cell i j] ++ rrest).
    rewrite app_assoc.
    rewrite (IH (S j)) by (rewrite ?length_app; simpl; lia).
    rewrite <- app_assoc. reflexivity.
Qed.

Lemma distance_matrix_row_at (i : nat) (pre : list (list float))
    (row : list float) (post : list (list float)) :
  Z.of_nat (length lon1) < 2 ^ 32 ->
  (i < length lon0)%nat -> (i < length lat0)%nat -> i = length pre ->
  (length lon1 <= length lat1)%nat -> length row = length lon1 ->
  distance_matrix_row sin cos atan2 pow lon0 lat0 lon1 lat1
    (Z.of_nat (length lon1)) (Z.of_nat i) (pre ++ row :: post)
  = Ok (pre ++ map (cell i) (seq 0 (length lon1)) :: post).
Proof.
  intros Hsz H0 H1 Hpre H3 Hrow. unfold distance_matrix_row, for_from.
  rewrite Z.sub_0_r, Nat2Z.id.
  change 0 with (Z.of_nat 0).
  change (pre ++ row :: post) with (pre ++ ([] ++ row) :: post).
  rewrite (distance_matrix_inner_loop i pre post H0 H1 Hpre
             (length lon1) 0 [] row) by (simpl; lia).
  rewrite skipn_all2 by lia. simpl. rewrite app_nil_r. reflexivity.
Qed.

Lemma distance_matrix_loop :
  Z.of_nat (length lon1) < 2 ^ 32 -> (length lon1 <= length lat1)%nat ->
  forall (n i : nat) (pre rest : list (list float)),
    i = length pre -> (n <= length rest)%nat ->
    Forall (fun row => length row = length lon1) rest ->
    (i + n <= length lon0)%nat -> (i + n <= length lat0)%nat ->
    for_loop n (Z.of_nat i)
      (distance_matrix_row sin cos atan2 pow lon0 lat0 lon1 lat1
         (Z.of_nat (length lon1)))
      (pre ++ rest)
    = Ok (pre
          ++ map (fun k => map (cell k) (seq 0 (length lon1))) (seq i n)
          ++ skipn n rest).
Proof.
  intros Hsz H3.
  induction n as [|n IH]; intros i pre rest Hpre Hrest Hrows H0 H1.
  - reflexivity.
  - destruct rest as [|row rest]; simpl in Hrest; [lia|].
    inversion Hrows as [|? ? Hrow Hrows']; subst.
    rewrite for_loop_S, distance_matrix_row_at, bind_ret by (try lia; assumption).
    replace (Z.of_nat (length pre) + 1) with (Z.of_nat (S (length pre))) by lia.
    change (pre ++ ?r :: rest) with (pre ++ [r] ++ rest).
    rewrite app_assoc.
    rewrite (IH (S (length pre))) by (rewrite ?length_app; simpl; try lia; assumption).
    rewrite <- app_assoc. reflexivity.
Qed.

Lemma distance_matrix_full (dist : list (list float)) :
  Z.of_nat (length lon0) < 2 ^ 32 -> Z.of_nat (length lon1) < 2 ^ 32 ->
  (length lon0 <= length lat0)%nat -> (length lon1 <= length lat1)%nat ->
  (length lon0 <= length dist)%nat ->
  Forall (fun row => length row = length lon1) dist ->
  distance_matrix sin cos atan2 pow lon0 lat0 lon1 lat1 dist
  = Ok (map (fun k => map (cell k) (seq 0 (length lon1)))
          (seq 0 (length lon0))
        ++ skipn (length lon0) dist).
Proof.
  intros Hsz0 Hsz1 H1 H3 Hd Hrows. unfold distance_matrix, for_from.
  rewrite !u32_small by lia. rewrite Z.sub_0_r, Nat2Z.id.
  apply (distance_matrix_loop Hsz1 H3 (length lon0) 0 [] dist);
    simpl; try lia; assumption.
Qed.

End GeoDistanceFacts.

Lemma nth_error_table {A : Type} (f : nat -> A) (n i : nat) (rest : list A) :
  (i < n)%nat -> nth_error (map f (seq 0 n) ++ rest) i = Some (f i).
Proof.
  intros H. rewrite nth_error_app1 by (rewrite length_map, length_seq; exact H).
  apply map_nth_error. rewrite nth_error_nth' with (d := O)
    by (rewrite length_seq; exact H).
  rewrite seq_nth by exact H. reflexivity.
Qed.

(** C7. With four input arrays of one length and an output buffer of that
    length, [distance_vector] leaves [distance(lon0[i], lat0[i], lon1[i],
    lat1[i])] at every position [i]; with [lon0], [lat0] of one length,
    [lon1], [lat1] of another and a buffer of that shape, [distance_matrix]
    leaves [distance(lon0[i], lat0[i], lon1[j], lat1[j])] at every position
    [(i, j)]. *)
Theorem distance_vector_matrix_elementwise
    (sin cos : float -> float) (atan2 pow : float -> float -> float)
    (lon0 lat0 lon1 lat1 : list float) :
  Z.of_nat (length lon0) < 2 ^ 32 -> Z.of_nat (length lon1) < 2 ^ 32 ->
  length lat0 = length lon0 -> length lat1 = length lon1 ->
  (forall dist : list float,
      length lon1 = length lon0 -> length dist = length lon0 ->
      exists dist',
        distance_vector sin cos atan2 pow lon0 lat0 lon1 lat1 dist = Ok dist'
        /\ length dist' = length lon0
        /\ forall i : nat,
            (i < length lon0)%nat ->
            nth_error dist' i
            = Some (distance sin cos atan2 pow
                      (nth i lon0 0%float) (nth i lat0 0%float)
                      (nth i lon1 0%float) (nth i lat1 0%float)))
  /\ (forall dist : list (list float),
         length dist = length lon0 ->
         Forall (fun row => length row = length lon1) dist ->
         exists dist',
           distance_matrix sin cos atan2 pow lon0 lat0 lon1 lat1 dist = Ok dist'
           /\ length dist' = length lon0
           /\ forall i j : nat,
               (i < length lon0)%nat -> (j < length lon1)%nat ->
               exists row,
                 nth_error dist' i = Some row
                 /\ length row = length lon1
                 /\ nth_error row j
                    = Some (distance sin cos atan2 pow
                              (nth i lon0 0%float) (nth i lat0 0%float)
                              (nth j lon1 0%float) (nth j lat1 0%float))).
Proof.
  intros Hsz0 Hsz1 Hlat0 Hlat1. split.
  - intros dist Hlon1 Hdist.
    rewrite distance_vector_prefix by lia.
    eexists; split; [reflexivity|]. split.
    + rewrite length_app, length_map, length_seq, length_skipn. lia.
    + intros i Hi. rewrite nth_error_table by exact Hi. reflexivity.
  - intros dist Hdist Hrows.
    rewrite distance_matrix_full by (try lia; assumption).
    eexists; split; [reflexivity|]. split.
    + rewrite length_app, length_map, length_seq, length_skipn. lia.
    + intros i j Hi Hj. rewrite nth_error_table by exact Hi.
      eexists; split; [reflexivity|]. split.
      * rewrite length_map, length_seq. reflexivity.
      * rewrite <- (app_nil_r (map _ _)).
        rewrite nth_error_table by exact Hj. reflexivity.
Qed.

Lemma distance_vector_matrix_elementwise_witness :
  let lon0 := [0; 1]%float in
  let lat0 := [0; 1]%float in
  let lon1 := [0; 2]%float in
  let lat1 := [1; 3]%float in
  let d := distance sin_series cos_series atan2_series pow_ieee in
  (Z.of_nat (length lon0) < 2 ^ 32 /\ length lat0 = length lon0
   /\ length lon1 = length lon0 /\ length lat1 = length lon1)
  /\ (exists dist',
        distance_vector sin_series cos_series atan2_series pow_ieee
          lon0 lat0 lon1 lat1 [9; 9]%float = Ok dist'
        /\ length dist' = length lon0
        /\ forall i : nat,
            (i < length lon0)%nat ->
            nth_error dist' i
            = Some (d (nth i lon0 0%float) (nth i lat0 0%float)
                      (nth i lon1 0%float) (nth i lat1 0%float)))
  /\ (exists dist',
        distance_matrix sin_series cos_series atan2_series pow_ieee
          lon0 lat0 lon1 lat1 [[9; 9]; [9; 9]]%float = Ok dist'
        /\ length dist' = length lon0
        /\ forall i j : nat,
            (i < length lon0)%nat -> (j < length lon1)%nat ->
            exists row,
              nth_error dist' i = Some row
              /\ length row = length lon1
              /\ nth_error row j
                 = Some (d (nth i lon0 0%float) (nth i lat0 0%float)
                           (nth j lon1 0%float) (nth j lat1 0%float))).
Proof.
  cbv zeta.
  destruct (distance_vector_matrix_elementwise
              sin_series cos_series atan2_series pow_ieee
              [0; 1]%float [0; 1]%float [0; 2]%float [1; 3]%float)
    as [Hv Hm]; try (simpl; lia); try reflexivity.
  split; [repeat split; simpl; lia|]. split.
  - apply Hv; reflexivity.
  - apply Hm; [reflexivity | repeat constructor].
Defined.

(** ** CircleFitter *)

Section CircleFitterFacts.

Variable pow : float -> float -> float.
Variable lstsq :
  list (float * float * float) -> list float -> outcome (float * float * float).

(** A vertex strictly outside the circle whose ordinate makes the divisor
    [center_y - y] zero stops the projection. *)
Lemma project_vertex_zero_divisor (center_x center_y radius x y : float) :
  (radius <? pow (pow (x - center_x) 2 + pow (y - center_y) 2) 0.5)%float = true ->
  (center_y - y =? 0)%float = true ->
  project_vertex pow center_x center_y radius x y = Raise ZeroDivisionError.
Proof.
  intros Hout Hzero. unfold project_vertex; cbv zeta. rewrite Hout.
  unfold fdiv at 1.
  destruct (pow (pow (x - center_x) 2 + pow (y - center_y) 2) 0.5 =? 0)%float;
    [reflexivity|].
  rewrite bind_ret. unfold fdiv. rewrite Hzero. reflexivity.
Qed.

Lemma project_vertex_cases (center_x center_y radius x y : float) :
  (exists p, project_vertex pow center_x center_y radius x y = Ok p)
  \/ project_vertex pow center_x center_y radius x y = Raise ZeroDivisionError.
Proof.
  unfold project_vertex, fdiv; cbv zeta.
  destruct (radius <? _)%float; [|left; eexists; reflexivity].
  destruct (pow (pow (x - center_x) 2 + pow (y - center_y) 2) 0.5 =? 0)%float;
    [right; reflexivity|].
  rewrite !bind_ret.
  destruct (center_y - y =? 0)%float;
    [right; reflexivity | left; eexists; reflexivity].
Qed.

Lemma project_step_at (center_x center_y radius : float)
    (x_vec y_vec : list float) (i : nat) (px py : list float) :
  (i < length x_vec)%nat -> (i < length y_vec)%nat ->
  project_step pow center_x center_y radius x_vec y_vec (Z.of_nat i) (px, py)
  = ('(p_x, p_y) <-
       project_vertex pow center_x center_y radius
         (nth i x_vec 0%float) (nth i y_vec 0%float) ;;
     Ok (px ++ [p_x], py ++ [p_y])).
Proof.
  intros Hx Hy. unfold project_step.
  rewrite (read_default x_vec i 0%float Hx), bind_ret.
  rewrite (read_default y_vec i 0%float Hy), bind_ret. reflexivity.
Qed.

(** The projection loop either fills both scratch buffers or stops on a
    zero divisor. *)
Lemma project_loop_cases (center_x center_y radius : float)
    (x_vec y_vec : list float) :
  forall (n i : nat) (px py : list float),
    (i + n <= length x_vec)%nat -> (i + n <= length y_vec)%nat ->
    (exists px' py',
        for_loop n (Z.of_nat i)
          (project_step pow center_x center_y radius x_vec y_vec) (px, py)
        = Ok (px', py')
        /\ length px' = (length px + n)%nat /\ length py' = (length py + n)%nat)
    \/ for_loop n (Z.of_nat i)
         (project_step pow center_x center_y radius x_vec y_vec) (px, py)
       = Raise ZeroDivisionError.
Proof.
  induction n as [|n IH]; intros i px py Hx Hy.
  - left; exists px, py; repeat split; simpl; lia.
  - rewrite for_loop_S, project_step_at by lia.
    destruct (project_vertex_cases center_x center_y radius
                (nth i x_vec 0%float) (nth i y_vec 0%float))
      as [[[p_x p_y] Hp]|Hp]; rewrite Hp; [|right; reflexivity].
    rewrite !bind_ret.
    replace (Z.of_nat i + 1) with (Z.of_nat (S i)) by lia.
    destruct (IH (S i) (px ++ [p_x]) (py ++ [p_y])) as [(px' & py' & Hrun & Hlx & Hly)|Hr];
      try lia.
    + left; exists px', py'. rewrite length_app in Hlx, Hly; simpl in Hlx, Hly.
      repeat split; [exact Hrun | lia | lia].
    + right; exact Hr.
Qed.

Lemma project_loop_raises (center_x center_y radius : float)
    (x_vec y_vec : list float) (k : nat) :
  project_vertex pow center_x center_y radius
    (nth k x_vec 0%float) (nth k y_vec 0%float) = Raise ZeroDivisionError ->
  forall (n i : nat) (px py : list float),
    (i <= k < i + n)%nat ->
    (i + n <= length x_vec)%nat -> (i + n <= length y_vec)%nat ->
    for_loop n (Z.of_nat i)
      (project_step pow center_x center_y radius x_vec y_vec) (px, py)
    = Raise ZeroDivisionError.
Proof.
  intros Hk. induction n as [|n IH]; intros i px py Hik Hx Hy; [lia|].
  rewrite for_loop_S, project_step_at by lia.
  destruct (project_vertex_cases center_x center_y radius
              (nth i x_vec 0%float) (nth i y_vec 0%float))
    as [[[p_x p_y] Hp]|Hp]; rewrite Hp; [|reflexivity].
  rewrite !bind_ret.
  destruct (Nat.eq_dec i k) as [->|Hne]; [rewrite Hk in Hp; discriminate|].
  replace (Z.of_nat i + 1) with (Z.of_nat (S i)) by lia.
  apply IH; lia.
Qed.

Lemma chain_shoelace_step (acc x0 x1 y0 y1 : float) (xt yt : list float) :
  chain_shoelace acc (x0 :: x1 :: xt) (y0 :: y1 :: yt)
  = chain_shoelace (acc + (x0 * y1 - x1 * y0))%float (x1 :: xt) (y1 :: yt).
Proof. reflexivity. Qed.

(** The area loop is the chain sum over the stored vertices, for both
    rings at once. *)
Lemma ring_areas_loop (px py xs ys : list float) (len : nat) :
  length px = len -> length py = len -> length xs = len -> length ys = len ->
  Z.of_nat len < 2 ^ 32 ->
  forall (n i : nat) (a b : float),
    (i + n + 1 = len)%nat ->
    for_loop n (Z.of_nat i) (ring_areas_step px py xs ys) (a, b)
    = Ok (chain_shoelace a (skipn i px) (skipn i py),
          chain_shoelace b (skipn i xs) (skipn i ys)).
Proof.
  intros Hpx Hpy Hxs Hys Hsz.
  assert (Hlast : forall (l : list float) (i : nat),
             length l = len -> (i + 1 = len)%nat ->
             exists x, skipn i l = [x]).
  { intros l i Hl Hi.
    destruct (nth_error l i) as [x|] eqn:E;
      [|apply nth_error_None in E; lia].
    exists x. rewrite (skipn_nth i l x E). rewrite skipn_all2 by lia.
    reflexivity. }
  assert (Htwo : forall (l : list float) (i : nat),
             length l = len -> (i + 1 < len)%nat ->
             skipn i l = nth i l 0%float :: nth (S i) l 0%float
                         :: skipn (S (S i)) l).
  { intros l i Hl Hi.
    rewrite (skipn_nth i l (nth i l 0%float)) by (apply nth_error_nth'; lia).
    rewrite (skipn_nth (S i) l (nth (S i) l 0%float))
      by (apply nth_error_nth'; lia).
    reflexivity. }
  induction n as [|n IH]; intros i a b Hi.
  - destruct (Hlast px i Hpx) as [x0 ->]; [lia|].
    destruct (Hlast py i Hpy) as [y0 ->]; [lia|].
    destruct (Hlast xs i Hxs) as [x0' ->]; [lia|].
    destruct (Hlast ys i Hys) as [y0' ->]; [lia|].
    reflexivity.
  - rewrite for_loop_S. unfold ring_areas_step at 1.
    replace (1 + Z.of_nat i) with (Z.of_nat (S i)) by lia.
    replace (Z.of_nat i + 1) with (Z.of_nat (S i)) by lia.
    rewrite (u32_small (Z.of_nat (S i))) by lia.
    rewrite (read_default px i 0%float), bind_ret by lia.
    rewrite (read_default py (S i) 0%float), bind_ret by lia.
    rewrite (read_default px (S i) 0%float), bind_ret by lia.
    rewrite (read_default py i 0%float), bind_ret by lia.
    rewrite (read_default xs i 0%float), bind_ret by lia.
    rewrite (read_default ys (S i) 0%float), bind_ret by lia.
    rewrite (read_default xs (S i) 0%float), bind_ret by lia.
    rewrite (read_default ys i 0%float), !bind_ret by lia.
    rewrite (IH (S i)) by lia.
    rewrite (Htwo px i Hpx), (Htwo py i Hpy), (Htwo xs i Hxs), (Htwo ys i Hys)
      by lia.
    rewrite !chain_shoelace_step.
    rewrite <- (skipn_nth (S i) px), <- (skipn_nth (S i) py),
      <- (skipn_nth (S i) xs), <- (skipn_nth (S i) ys)
      by (apply nth_error_nth'; lia).
    reflexivity.
Qed.

Lemma ring_areas_chain (px py xs ys : list float) :
  length px = length xs -> length py = length xs -> length ys = length xs ->
  (1 <= length xs)%nat -> Z.of_nat (length xs) < 2 ^ 32 ->
  ring_areas px py xs ys (Z.of_nat (length xs))
  = Ok (chain_shoelace 0 px py, chain_shoelace 0 xs ys).
Proof.
  intros Hpx Hpy Hys Hn Hsz. unfold ring_areas, for_from.
  rewrite u32_small by lia. rewrite Z.sub_0_r.
  change 0 with (Z.of_nat 0) at 1.
  rewrite (ring_areas_loop px py xs ys (length xs) Hpx Hpy eq_refl Hys Hsz
             (Z.to_nat (Z.of_nat (length xs) - 1)) 0) by lia.
  reflexivity.
Qed.

End CircleFitterFacts.

Lemma project_ring_length (pow : float -> float -> float)
    (center_x center_y radius : float) (x_vec y_vec px py : list float) :
  length y_vec = length x_vec ->
  project_ring pow center_x center_y radius x_vec y_vec
    (Z.of_nat (length x_vec)) = Ok (px, py) ->
  length px = length x_vec /\ length py = length x_vec.
Proof.
  intros Hy. unfold project_ring, for_from.
  rewrite Z.sub_0_r, Nat2Z.id. change 0 with (Z.of_nat 0).
  destruct (project_loop_cases pow center_x center_y radius x_vec y_vec
              (length x_vec) 0 [] [])
    as [(px' & py' & Hrun & Hlx & Hly)|Hr]; try (simpl; lia).
  - rewrite Hrun. intros H; injection H as -> ->. simpl in Hlx, Hly. lia.
  - rewrite Hr. discriminate.
Qed.

Lemma fitted_circle_empty (pow : float -> float -> float)
    (lstsq : list (float * float * float) -> list float
             -> outcome (float * float * float))
    (y_vec : list float) :
  fitted_circle pow lstsq [] y_vec = Raise ZeroDivisionError.
Proof. reflexivity. Qed.

(** C2. When the fit of a polygon is the circle of centre [(center_x,
    center_y)] and some vertex lies strictly outside it with
    [center_y - y_vec[k]] equal to zero, the projection of that vertex
    divides by zero, nothing in [fit_circle_c] stands in the way, and the
    call ends in [ZeroDivisionError]. *)
Theorem fit_circle_c_unguarded_division
    (pow : float -> float -> float)
    (lstsq : list (float * float * float) -> list float
             -> outcome (float * float * float))
    (x_vec y_vec : list float) (center_x center_y radius : float) (k : nat) :
  length y_vec = length x_vec ->
  Z.of_nat (length x_vec) < 2 ^ 32 ->
  fitted_circle pow lstsq x_vec y_vec = Ok (center_x, center_y, radius) ->
  (k < length x_vec)%nat ->
  (radius <? pow (pow (nth k x_vec 0 - center_x) 2
                  + pow (nth k y_vec 0 - center_y) 2) 0.5)%float = true ->
  (center_y - nth k y_vec 0 =? 0)%float = true ->
  project_vertex pow center_x center_y radius
    (nth k x_vec 0%float) (nth k y_vec 0%float) = Raise ZeroDivisionError
  /\ fit_circle_c pow lstsq x_vec y_vec = Raise ZeroDivisionError.
Proof.
  intros Hy Hsz Hfit Hk Hout Hzero.
  pose proof (project_vertex_zero_divisor pow center_x center_y radius
                _ _ Hout Hzero) as Hp.
  split; [exact Hp|].
  unfold fit_circle_c. rewrite Hfit, bind_ret. rewrite u32_small by lia.
  unfold project_ring, for_from. rewrite Z.sub_0_r, Nat2Z.id.
  change 0 with (Z.of_nat 0).
  rewrite (project_loop_raises pow center_x center_y radius x_vec y_vec k Hp)
    by lia.
  reflexivity.
Qed.

(** The kite [(2,0), (0,1), (-2,0), (0,-1)]: its least-squares circle is
    centred at the origin with radius [2 * sqrt 0.625 < 2], and the vertex
    [(2, 0)] is level with the centre. *)
Lemma fit_circle_c_unguarded_division_witness :
  let x_vec := [2; 0; -2; 0]%float in
  let y_vec := [0; 1; 0; -1]%float in
  let radius := (PrimFloat.sqrt 0.625 * 2)%float in
  fitted_circle pow_ieee lstsq_orth x_vec y_vec = Ok (0, 0, radius)%float
  /\ (radius <? pow_ieee (pow_ieee (2 - 0) 2 + pow_ieee (0 - 0) 2) 0.5)%float
     = true
  /\ (0 - 0 =? 0)%float = true
  /\ project_vertex pow_ieee 0 0 radius 2 0 = Raise ZeroDivisionError
  /\ fit_circle_c pow_ieee lstsq_orth x_vec y_vec = Raise ZeroDivisionError.
Proof.
  cbv zeta. split; [reflexivity|]. split; [reflexivity|]. split; [reflexivity|].
  apply (fit_circle_c_unguarded_division pow_ieee lstsq_orth
           [2; 0; -2; 0]%float [0; 1; 0; -1]%float 0%float 0%float
           (PrimFloat.sqrt 0.625 * 2)%float 0);
    try reflexivity; simpl; lia.
Defined.

(** C3, amended to what the code does. The shape error returned by
    [fit_circle_c] is computed from the areas of the clipped and of the
    original ring, each taken as [|sum| * 0.5] of the shoelace terms of the
    edges between consecutive stored vertices: the edge from the last stored
    vertex back to the first is not part of the sum. *)
Theorem fit_circle_c_areas_over_stored_edges
    (pow : float -> float -> float)
    (lstsq : list (float * float * float) -> list float
             -> outcome (float * float * float))
    (x_vec y_vec p_inon_x p_inon_y : list float)
    (center_x center_y radius a_err : float) :
  length y_vec = length x_vec ->
  Z.of_nat (length x_vec) < 2 ^ 32 ->
  fitted_circle pow lstsq x_vec y_vec = Ok (center_x, center_y, radius) ->
  project_ring pow center_x center_y radius x_vec y_vec
    (Z.of_nat (length x_vec)) = Ok (p_inon_x, p_inon_y) ->
  shape_error (pow radius 2 * PI)%float
    (chain_area p_inon_x p_inon_y) (chain_area x_vec y_vec) = Ok a_err ->
  ring_areas p_inon_x p_inon_y x_vec y_vec (Z.of_nat (length x_vec))
  = Ok (chain_shoelace 0 p_inon_x p_inon_y, chain_shoelace 0 x_vec y_vec)
  /\ fit_circle_c pow lstsq x_vec y_vec
     = Ok (center_x, center_y, radius, a_err).
Proof.
  intros Hy Hsz Hfit Hproj Herr.
  assert (Hn : (1 <= length x_vec)%nat).
  { destruct x_vec as [|x x_vec]; [|simpl; lia].
    rewrite fitted_circle_empty in Hfit. discriminate. }
  destruct (project_ring_length pow center_x center_y radius x_vec y_vec
              p_inon_x p_inon_y Hy Hproj) as [Hlx Hly].
  pose proof (ring_areas_chain p_inon_x p_inon_y x_vec y_vec Hlx Hly Hy Hn Hsz)
    as Hareas.
  split; [exact Hareas|].
  unfold fit_circle_c. rewrite Hfit, bind_ret. rewrite u32_small by lia.
  rewrite Hproj, bind_ret, Hareas, bind_ret. cbv zeta.
  unfold chain_area in Herr. rewrite Herr, bind_ret. reflexivity.
Qed.

(** The rectangle of corners [(3,1), (-3,1), (-3,-1), (3,-1)], stored
    without a repeated vertex: the fitted circle has centre [(0,0)] and
    radius [sqrt 10], no vertex is outside it, the three stored edges give
    the area 9, and the shape error follows. *)
Lemma fit_circle_c_areas_over_stored_edges_witness :
  let x_vec := [3; -3; -3; 3]%float in
  let y_vec := [1; 1; -1; -1]%float in
  let radius := PrimFloat.sqrt 10 in
  let c_area := (radius * radius * PI)%float in
  let a_err := (((c_area - 2 * 9 + 9) * 100) / c_area)%float in
  fitted_circle pow_ieee lstsq_orth x_vec y_vec = Ok (0, 0, radius)%float
  /\ project_ring pow_ieee 0 0 radius x_vec y_vec 4 = Ok (x_vec, y_vec)
  /\ chain_area x_vec y_vec = 9%float
  /\ ring_areas x_vec y_vec x_vec y_vec 4 = Ok (18, 18)%float
  /\ fit_circle_c pow_ieee lstsq_orth x_vec y_vec
     = Ok (0, 0, radius, a_err)%float.
Proof.
  cbv zeta. split; [reflexivity|]. split; [reflexivity|]. split; [reflexivity|].
  apply (fit_circle_c_areas_over_stored_edges pow_ieee lstsq_orth
           [3; -3; -3; 3]%float [1; 1; -1; -1]%float
           [3; -3; -3; 3]%float [1; 1; -1; -1]%float 0%float 0%float
           (PrimFloat.sqrt 10));
    try reflexivity; simpl; lia.
Defined.

(** A ring stored closed, its first vertex written again at the end, gets
    the area of the closed ring. *)
Remark chain_area_closed_storage (xs ys : list float) :
  chain_area (xs ++ firstn 1 xs) (ys ++ firstn 1 ys) = cyclic_area xs ys.
Proof. reflexivity. Qed.

(** C3, as the specification states it, fails on that rectangle: the
    closed ring has area 12 (the four edges), the code uses 9, and the shape
    error it returns is not the one the area 12 gives. *)
Lemma fit_circle_c_area_misses_closing_edge :
  let x_vec := [3; -3; -3; 3]%float in
  let y_vec := [1; 1; -1; -1]%float in
  let radius := PrimFloat.sqrt 10 in
  cyclic_area x_vec y_vec = 12%float
  /\ project_ring pow_ieee 0 0 radius x_vec y_vec 4 = Ok (x_vec, y_vec)
  /\ ring_areas x_vec y_vec x_vec y_vec 4 = Ok (18, 18)%float
  /\ (abs 18 * 0.5)%float = 9%float
  /\ exists a_err a_err',
       fit_circle_c pow_ieee lstsq_orth x_vec y_vec
       = Ok (0, 0, radius, a_err)%float
       /\ shape_error (pow_ieee radius 2 * PI)%float
            (cyclic_area x_vec y_vec) (cyclic_area x_vec y_vec) = Ok a_err'
       /\ (a_err' <? a_err)%float = true.
Proof.
  cbv zeta. split; [reflexivity|]. split; [reflexivity|]. split; [reflexivity|].
  split; [reflexivity|].
  eexists; eexists. split; [vm_compute; reflexivity|].
  split; [vm_compute; reflexivity|]. reflexivity.
Qed.

(** *** Errors of [fit_circle_c] *)

Lemma read_Raise {A : Type} (buf : list A) (i : Z) (e : exn) :
  read buf i = Raise e -> False.
Proof.
  unfold read. destruct (i <? 0); [discriminate|].
  destruct (nth_error buf (Z.to_nat i)); discriminate.
Qed.

Lemma fdiv_Raise (a b : float) (e : exn) :
  fdiv a b = Raise e -> e = ZeroDivisionError.
Proof.
  unfold fdiv. destruct (b =? 0)%float; [|discriminate].
  intros H; injection H as <-; reflexivity.
Qed.

Lemma for_loop_Raise {S : Type} (P : exn -> Prop)
    (body : Z -> S -> outcome S) :
  (forall i s e, body i s = Raise e -> P e) ->
  forall (n : nat) (i : Z) (s : S) (e : exn),
    for_loop n i body s = Raise e -> P e.
Proof.
  intros Hbody. induction n as [|n IH]; intros i s e H; [discriminate|].
  rewrite for_loop_S in H. apply bind_Raise in H as [H|(s' & _ & H)].
  - apply (Hbody i s e H).
  - apply (IH _ _ _ H).
Qed.

(** Peels the binds of a raising computation, closing the branches where a
    buffer read would have raised. *)
Ltac raise_cases H :=
  repeat match type of H with
         | bind _ _ = Raise _ =>
             let a := fresh "a" in
             let Ha := fresh "Ha" in
             apply bind_Raise in H as [H|(a & Ha & H)]
         | read _ _ = Raise _ => exfalso; exact (read_Raise _ _ _ H)
         | (let '(_, _) := ?p in _) = Raise _ => destruct p
         end.

Section CircleFitterErrors.

Variable pow : float -> float -> float.
Variable lstsq :
  list (float * float * float) -> list float -> outcome (float * float * float).

Lemma centroid_Raise (x_vec y_vec : list float) (nb_elt : Z) (e : exn) :
  centroid x_vec y_vec nb_elt = Raise e -> e = ZeroDivisionError.
Proof.
  unfold centroid, for_from. intros H. raise_cases H.
  - exfalso. revert H. apply (for_loop_Raise (fun _ => False)).
    intros i [xm ym] e' H'. unfold centroid_step in H'. raise_cases H'.
    discriminate H'.
  - apply (fdiv_Raise _ _ _ H).
  - apply (fdiv_Raise _ _ _ H).
  - discriminate H.
Qed.

Lemma fitted_circle_Raise (x_vec y_vec : list float) (e : exn) :
  fitted_circle pow lstsq x_vec y_vec = Raise e -> fit_circle_exn lstsq e.
Proof.
  unfold fitted_circle; cbv zeta. intros H. raise_cases H.
  - left. apply (centroid_Raise _ _ _ _ H).
  - right; left. unfold np_broadcast in H.
    destruct (length x_vec =? length y_vec)%nat; [discriminate|].
    destruct x_vec as [|? [|? ?]], y_vec as [|? [|? ?]];
      try discriminate; injection H as <-; reflexivity.
  - right; left. unfold np_max in H.
    match type of H with
    | match ?l with _ => _ end = _ => destruct l; [|discriminate]
    end.
    injection H as <-; reflexivity.
  - left. revert H. unfold for_from.
    apply (for_loop_Raise (fun e => e = ZeroDivisionError)).
    intros i s e' H'. unfold datas_step in H'. raise_cases H';
      try (apply (fdiv_Raise _ _ _ H')). discriminate H'.
  - right; right. eexists; eexists; exact H.
  - discriminate H.
Qed.

Lemma project_ring_Raise (center_x center_y radius : float)
    (x_vec y_vec : list float) (nb_elt : Z) (e : exn) :
  project_ring pow center_x center_y radius x_vec y_vec nb_elt = Raise e ->
  e = ZeroDivisionError.
Proof.
  unfold project_ring, for_from.
  apply (for_loop_Raise (fun e => e = ZeroDivisionError)).
  intros i [px py] e' H. unfold project_step in H. raise_cases H.
  - match type of H with
    | project_vertex _ _ _ _ ?x ?y = _ =>
        destruct (project_vertex_cases pow center_x center_y radius x y)
          as [[p Hp]|Hp]; rewrite Hp in H; [discriminate|]
    end.
    injection H as <-; reflexivity.
  - discriminate H.
Qed.

Lemma ring_areas_Raise (px py xs ys : list float) (nb_elt : Z) (e : exn) :
  ring_areas px py xs ys nb_elt = Raise e -> False.
Proof.
  unfold ring_areas, for_from.
  apply (for_loop_Raise (fun _ => False)).
  intros i [a b] e' H. unfold ring_areas_step in H. raise_cases H.
  discriminate H.
Qed.

Lemma fit_circle_c_Raise (x_vec y_vec : list float) (e : exn) :
  fit_circle_c pow lstsq x_vec y_vec = Raise e -> fit_circle_exn lstsq e.
Proof.
  unfold fit_circle_c; cbv zeta. intros H. raise_cases H.
  - apply (fitted_circle_Raise _ _ _ H).
  - left. apply (project_ring_Raise _ _ _ _ _ _ _ H).
  - exfalso. apply (ring_areas_Raise _ _ _ _ _ _ H).
  - left. apply (fdiv_Raise _ _ _ H).
  - discriminate H.
Qed.

(** X9. A fitted circle of zero area, [pow radius 2 * PI = 0], ends the
    call at the last division, in [ZeroDivisionError]: no result is
    returned. *)
Lemma fit_circle_c_zero_area (x_vec y_vec : list float)
    (center_x center_y radius : float) :
  length y_vec = length x_vec ->
  Z.of_nat (length x_vec) < 2 ^ 32 ->
  fitted_circle pow lstsq x_vec y_vec = Ok (center_x, center_y, radius) ->
  (pow radius 2 * PI =? 0)%float = true ->
  fit_circle_c pow lstsq x_vec y_vec = Raise ZeroDivisionError.
Proof.
  intros Hy Hsz Hfit Hzero.
  assert (Hn : (1 <= length x_vec)%nat).
  { destruct x_vec as [|x x_vec]; [|simpl; lia].
    rewrite fitted_circle_empty in Hfit. discriminate. }
  unfold fit_circle_c. rewrite Hfit, bind_ret. rewrite u32_small by lia.
  destruct (project_ring pow center_x center_y radius x_vec y_vec
              (Z.of_nat (length x_vec))) as [[px py]|e|] eqn:Hproj.
  - destruct (project_ring_length pow _ _ _ _ _ _ _ Hy Hproj) as [Hlx Hly].
    rewrite bind_ret, (ring_areas_chain px py x_vec y_vec Hlx Hly Hy Hn Hsz),
      bind_ret.
    cbv zeta. unfold shape_error, fdiv. rewrite Hzero. reflexivity.
  - rewrite (project_ring_Raise _ _ _ _ _ _ _ Hproj). reflexivity.
  - exfalso. revert Hproj. unfold project_ring, for_from.
    rewrite Z.sub_0_r, Nat2Z.id. change 0 with (Z.of_nat 0).
    destruct (project_loop_cases pow center_x center_y radius x_vec y_vec
                (length x_vec) 0 [] [])
      as [(px' & py' & Hrun & _)|Hr]; try (simpl; lia).
    + rewrite Hrun; discriminate.
    + rewrite Hr; discriminate.
Qed.

End CircleFitterErrors.

(** A zero scale (every point equal to the computed mean) stops the call
    while the system is built. *)
Lemma fitted_circle_zero_scale (pow : float -> float -> float)
    (lstsq : list (float * float * float) -> list float
             -> outcome (float * float * float))
    (x_vec y_vec norme : list float) (x_mean y_mean norme_max : float) :
  (1 <= length x_vec)%nat -> Z.of_nat (length x_vec) < 2 ^ 32 ->
  centroid x_vec y_vec (Z.of_nat (length x_vec)) = Ok (x_mean, y_mean) ->
  np_broadcast
    (fun x y =>
       ((x - x_mean) * (x - x_mean) + (y - y_mean) * (y - y_mean))%float)
    x_vec y_vec = Ok norme ->
  np_max norme = Ok norme_max ->
  (pow norme_max 0.5 =? 0)%float = true ->
  fitted_circle pow lstsq x_vec y_vec = Raise ZeroDivisionError.
Proof.
  intros Hn Hsz Hc Hb Hm Hzero. unfold fitted_circle; cbv zeta.
  rewrite u32_small by lia.
  rewrite Hc, bind_ret, Hb, bind_ret, Hm, bind_ret.
  unfold for_from. rewrite Z.sub_0_r, Nat2Z.id.
  destruct (length x_vec) as [|n] eqn:Hlen; [lia|].
  rewrite for_loop_S. unfold datas_step at 1.
  change 0 with (Z.of_nat 0).
  rewrite (read_default x_vec 0 0%float) by lia.
  rewrite bind_ret. unfold fdiv at 1. rewrite Hzero. reflexivity.
Qed.

(** The clipping loop copies the vertices that are not strictly outside
    the circle. *)
Lemma project_loop_inside (pow : float -> float -> float)
    (x_vec y_vec : list float) (center_x center_y radius : float) :
  (forall k, (k < length x_vec)%nat ->
     (radius <? pow (pow (nth k x_vec 0 - center_x) 2
                     + pow (nth k y_vec 0 - center_y) 2) 0.5)%float = false) ->
  forall (n i : nat),
    (i + n <= length x_vec)%nat -> (i + n <= length y_vec)%nat ->
    for_loop n (Z.of_nat i)
      (project_step pow center_x center_y radius x_vec y_vec)
      (firstn i x_vec, firstn i y_vec)
    = Ok (firstn (i + n) x_vec, firstn (i + n) y_vec).
Proof.
  intros Hin. induction n as [|n IH]; intros i Hx Hy.
  - rewrite Nat.add_0_r. reflexivity.
  - rewrite for_loop_S, project_step_at by lia.
    unfold project_vertex. cbv zeta. rewrite Hin by lia. rewrite !bind_ret.
    rewrite <- (firstn_nth i x_vec) by (apply nth_error_nth'; lia).
    rewrite <- (firstn_nth i y_vec) by (apply nth_error_nth'; lia).
    replace (Z.of_nat i + 1) with (Z.of_nat (S i)) by lia.
    rewrite (IH (S i)) by lia.
    replace (S i + n)%nat with (i + S n)%nat by lia. reflexivity.
Qed.

(** A radius that is NaN or [+infinity] is not below any distance. *)
Lemma float_ltb_non_finite (r d : float) :
  PrimFloat.is_nan r || (r =? infinity)%float = true ->
  (r <? d)%float = false.
Proof.
  unfold PrimFloat.is_nan. rewrite !eqb_spec, ltb_spec.
  change (Prim2SF infinity) with (S754_infinity false).
  unfold SFeqb, SFltb. intros H.
  destruct (Prim2SF r) as [[|]|[|]| |[|] m e], (Prim2SF d) as [[|]|[|]| |[|] md ed];
    simpl in *; try reflexivity; try discriminate;
    rewrite Z.compare_refl, Pos.compare_cont_refl in H; discriminate.
Qed.

(** What [fit_circle_c] returns when no vertex is moved and the area of
    the circle is not zero. *)
Lemma fit_circle_c_unclipped
    (pow : float -> float -> float)
    (lstsq : list (float * float * float) -> list float
             -> outcome (float * float * float))
    (x_vec y_vec : list float) (center_x center_y radius : float) :
  length y_vec = length x_vec ->
  Z.of_nat (length x_vec) < 2 ^ 32 ->
  fitted_circle pow lstsq x_vec y_vec = Ok (center_x, center_y, radius) ->
  (forall d : float, (radius <? d)%float = false) ->
  (pow radius 2 * PI =? 0)%float = false ->
  fit_circle_c pow lstsq x_vec y_vec
  = Ok (center_x, center_y, radius,
        ((pow radius 2 * PI - 2 * chain_area x_vec y_vec
          + chain_area x_vec y_vec) * 100 / (pow radius 2 * PI))%float).
Proof.
  intros Hy Hsz Hfit Hin Harea.
  assert (Hn : (1 <= length x_vec)%nat).
  { destruct x_vec as [|x xt]; [|simpl; lia].
    rewrite fitted_circle_empty in Hfit. discriminate. }
  assert (Hproj : project_ring pow center_x center_y radius x_vec y_vec
                    (Z.of_nat (length x_vec)) = Ok (x_vec, y_vec)).
  { unfold project_ring, for_from. rewrite Z.sub_0_r, Nat2Z.id.
    change 0 with (Z.of_nat 0).
    change (@nil float) with (firstn 0 x_vec) at 1.
    change (@nil float) with (firstn 0 y_vec).
    rewrite (project_loop_inside pow x_vec y_vec center_x center_y radius)
      by (try (intros k _; apply Hin); lia).
    simpl Nat.add. rewrite firstn_all. rewrite <- Hy at 1.
    rewrite firstn_all. reflexivity. }
  unfold fit_circle_c. rewrite Hfit, bind_ret. rewrite u32_small by lia.
  rewrite Hproj, bind_ret.
  rewrite (ring_areas_chain x_vec y_vec x_vec y_vec eq_refl Hy Hy Hn Hsz),
    bind_ret.
  cbv zeta. unfold shape_error, fdiv. rewrite Harea, bind_ret. reflexivity.
Qed.

(** C4, amended to what the code does. [fit_circle_c] has no numeric-error
    path: an exception it ends in is a [ZeroDivisionError] of the division
    operator, numpy's [ValueError], or one the solver raised; a zero scale is
    the degenerate case it stops on, with [ZeroDivisionError]; and, for
    arrays of one length, a fitted radius that is NaN or [+infinity] is
    returned as it is, with the centre and with the shape error computed
    from it. *)
Theorem fit_circle_c_degenerate_errors
    (pow : float -> float -> float)
    (lstsq : list (float * float * float) -> list float
             -> outcome (float * float * float))
    (x_vec y_vec : list float) :
  (forall e : exn,
      fit_circle_c pow lstsq x_vec y_vec = Raise e -> fit_circle_exn lstsq e)
  /\ (forall (norme : list float) (x_mean y_mean norme_max : float),
         (1 <= length x_vec)%nat -> Z.of_nat (length x_vec) < 2 ^ 32 ->
         centroid x_vec y_vec (Z.of_nat (length x_vec)) = Ok (x_mean, y_mean) ->
         np_broadcast
           (fun x y =>
              ((x - x_mean) * (x - x_mean) + (y - y_mean) * (y - y_mean))%float)
           x_vec y_vec = Ok norme ->
         np_max norme = Ok norme_max ->
         (pow norme_max 0.5 =? 0)%float = true ->
         fit_circle_c pow lstsq x_vec y_vec = Raise ZeroDivisionError)
  /\ (forall center_x center_y radius : float,
         length y_vec = length x_vec -> Z.of_nat (length x_vec) < 2 ^ 32 ->
         fitted_circle pow lstsq x_vec y_vec
         = Ok (center_x, center_y, radius) ->
         PrimFloat.is_nan radius || (radius =? infinity)%float = true ->
         (pow radius 2 * PI =? 0)%float = false ->
         fit_circle_c pow lstsq x_vec y_vec
         = Ok (center_x, center_y, radius,
               ((pow radius 2 * PI - 2 * chain_area x_vec y_vec
                 + chain_area x_vec y_vec) * 100 / (pow radius 2 * PI))%float)).
Proof.
  split; [|split].
  - intros e. apply fit_circle_c_Raise.
  - intros norme x_mean y_mean norme_max Hn Hsz Hc Hb Hm Hzero.
    unfold fit_circle_c.
    rewrite (fitted_circle_zero_scale pow lstsq x_vec y_vec norme
               x_mean y_mean norme_max Hn Hsz Hc Hb Hm Hzero).
    reflexivity.
  - intros center_x center_y radius Hy Hsz Hfit Hrad Harea.
    apply fit_circle_c_unclipped; try assumption.
    intros d. apply float_ltb_non_finite. exact Hrad.
Qed.

(** Three coincident points: the scale is zero. Four points so far from
    one another that the squared distances overflow: the scale is infinite,
    the right-hand side of the system is NaN, and so are the radius and the
    shape error that are returned. *)
Lemma fit_circle_c_degenerate_errors_witness :
  let x_vec := [1; 1; 1]%float in
  let y_vec := [2; 2; 2]%float in
  let x_far := [0x1p600; -0x1p600; 0; 0]%float in
  let y_far := [0; 0; 0x1p600; -0x1p600]%float in
  centroid x_vec y_vec 3 = Ok (1, 2)%float
  /\ np_max [0; 0; 0]%float = Ok 0%float
  /\ (pow_ieee 0 0.5 =? 0)%float = true
  /\ fit_circle_c pow_ieee lstsq_orth x_vec y_vec = Raise ZeroDivisionError
  /\ fit_circle_exn lstsq_orth ZeroDivisionError
  /\ fitted_circle pow_ieee lstsq_orth x_far y_far = Ok (nan, nan, nan)
  /\ PrimFloat.is_nan nan = true
  /\ (pow_ieee nan 2 * PI =? 0)%float = false
  /\ fit_circle_c pow_ieee lstsq_orth x_far y_far = Ok (nan, nan, nan, nan).
Proof.
  cbv zeta.
  destruct (fit_circle_c_degenerate_errors pow_ieee lstsq_orth
              [1; 1; 1]%float [2; 2; 2]%float) as (Hexn & Hscale & _).
  destruct (fit_circle_c_degenerate_errors pow_ieee lstsq_orth
              [0x1p600; -0x1p600; 0; 0]%float [0; 0; 0x1p600; -0x1p600]%float)
    as (_ & _ & Hnan).
  assert (Hraise : fit_circle_c pow_ieee lstsq_orth [1; 1; 1]%float
                     [2; 2; 2]%float = Raise ZeroDivisionError).
  { apply (Hscale [0; 0; 0]%float 1%float 2%float 0%float);
      try reflexivity; simpl; lia. }
  split; [reflexivity|]. split; [reflexivity|]. split; [reflexivity|].
  split; [exact Hraise|]. split; [exact (Hexn _ Hraise)|].
  split; [reflexivity|]. split; [reflexivity|]. split; [reflexivity|].
  rewrite (Hnan nan nan nan) by (try reflexivity; simpl; lia). reflexivity.
Defined.

(** C4, as the specification states it, fails on four collinear points:
    the first column of the system is null, the solver's minimum-norm answer
    is [(0, 0, 0.625)], and the call returns a circle and a shape error of
    100 per cent. *)
Lemma fit_circle_c_collinear_returns :
  let x_vec := [0; 0; 0; 0]%float in
  let y_vec := [-2; -1; 1; 2]%float in
  lstsq_orth [(0, -2, 1); (0, -1, 1); (0, 1, 1); (0, 2, 1)]%float
    [1; 0.25; 0.25; 1]%float = Ok (0, 0, 0.625)%float
  /\ fit_circle_c pow_ieee lstsq_orth x_vec y_vec
     = Ok (0, 0, PrimFloat.sqrt 0.625 * 2, 100)%float.
Proof. cbv zeta. split; vm_compute; reflexivity. Qed.

(** ** Preconditions *)

(** C5, amended to what the code does. No entry point checks its
    arguments: a ring without vertices has winding number 0, [fit_circle_c]
    over empty arrays ends in the [ZeroDivisionError] of the mean, and
    [distance_vector] takes its length from [lon0] alone, filling that many
    cells when the other arrays are at least as long. *)
Theorem entry_points_check_nothing
    (sin cos : float -> float) (atan2 pow : float -> float -> float)
    (lstsq : list (float * float * float) -> list float
             -> outcome (float * float * float)) :
  (forall x_test y_test : float, winding_number_poly x_test y_test [] = Ok 0)
  /\ (forall y_vec : list float,
         fit_circle_c pow lstsq [] y_vec = Raise ZeroDivisionError)
  /\ (forall lon0 lat0 lon1 lat1 dist : list float,
         Z.of_nat (length lon0) < 2 ^ 32 ->
         (length lon0 <= length lat0)%nat -> (length lon0 <= length lon1)%nat ->
         (length lon0 <= length lat1)%nat -> (length lon0 <= length dist)%nat ->
         distance_vector sin cos atan2 pow lon0 lat0 lon1 lat1 dist
         = Ok (map (fun k => distance_at sin cos atan2 pow lon0 lat0 lon1 lat1 k k)
                 (seq 0 (length lon0))
               ++ skipn (length lon0) dist)).
Proof.
  split; [reflexivity|]. split; [reflexivity|].
  intros lon0 lat0 lon1 lat1 dist. apply distance_vector_prefix.
Qed.

Lemma entry_points_check_nothing_witness :
  let d := distance sin_series cos_series atan2_series pow_ieee in
  winding_number_poly 1 1 [] = Ok 0
  /\ fit_circle_c pow_ieee lstsq_orth [] [] = Raise ZeroDivisionError
  /\ distance_vector sin_series cos_series atan2_series pow_ieee
       [0]%float [0; 1]%float [0; 2]%float [1; 3; 5]%float [9; 9]%float
     = Ok [d 0 0 0 1; 9]%float.
Proof.
  cbv zeta.
  destruct (entry_points_check_nothing sin_series cos_series atan2_series
              pow_ieee lstsq_orth) as (Hw & Hf & Hd).
  split; [apply Hw|]. split; [apply Hf|].
  apply (Hd [0]%float [0; 1]%float [0; 2]%float [1; 3; 5]%float [9; 9]%float);
    simpl; lia.
Defined.

(** C5, as the specification states it, fails: a ring without vertices gets the
    winding number 0, and [distance_vector] with arrays of lengths 1, 2, 2
    and 3 fills one cell, both without any error. *)
Lemma malformed_input_is_not_rejected :
  winding_number_poly 0 0 [] = Ok 0
  /\ distance_vector sin_series cos_series atan2_series pow_ieee
       [0]%float [0; 1]%float [0; 2]%float [1; 3; 5]%float [9; 9]%float
     = Ok [distance sin_series cos_series atan2_series pow_ieee 0 0 0 1; 9]%float.
Proof. split; vm_compute; reflexivity. Qed.

(** * Further properties *)

(** ** The order of the floats

    The comparisons of binary64, read through their specification: [<] is
    transitive and irreflexive, and [<=] is compatible with it; a NaN
    compares false with everything. *)

(** Case analysis on the exponent and mantissa comparisons of two finite
    floats. *)
Ltac sf_cases :=
  repeat match goal with
         | H : context [Z.compare ?a ?b] |- _ =>
             destruct (Z.compare_spec a b)
         | |- context [Z.compare ?a ?b] =>
             destruct (Z.compare_spec a b)
         | H : context [Pos.compare_cont Eq ?a ?b] |- _ =>
             change (Pos.compare_cont Eq a b) with (Pos.compare a b) in *;
             destruct (Pos.compare_spec a b)
         | |- context [Pos.compare_cont Eq ?a ?b] =>
             change (Pos.compare_cont Eq a b) with (Pos.compare a b) in *;
             destruct (Pos.compare_spec a b)
         end;
  simpl in *; subst; try discriminate; try reflexivity; try lia.

Lemma SFcompare_lt_trans (a b c : spec_float) :
  SFcompare a b = Some Lt -> SFcompare b c = Some Lt -> SFcompare a c = Some Lt.
Proof.
  destruct a as [[|]|[|]| |[|] ma ea], b as [[|]|[|]| |[|] mb eb],
    c as [[|]|[|]| |[|] mc ec]; simpl; intros H1 H2;
    try discriminate; try reflexivity;
    injection H1 as H1; injection H2 as H2; f_equal; sf_cases.
Qed.

Lemma SFcompare_le_lt_trans (a b c : spec_float) :
  SFleb a b = true -> SFcompare b c = Some Lt -> SFcompare a c = Some Lt.
Proof.
  unfold SFleb.
  destruct a as [[|]|[|]| |[|] ma ea], b as [[|]|[|]| |[|] mb eb],
    c as [[|]|[|]| |[|] mc ec]; simpl; intros H1 H2;
    try discriminate; try reflexivity;
    injection H2 as H2; f_equal; sf_cases.
Qed.

Lemma SFcompare_irrefl (a : spec_float) : SFcompare a a <> Some Lt.
Proof.
  destruct a as [[|]|[|]| |[|] ma ea]; simpl; try discriminate;
    intros H; injection H as H; sf_cases.
Qed.

Lemma SFleb_not_gt (a b : spec_float) : SFleb a b = true -> SFltb b a = false.
Proof.
  unfold SFleb, SFltb.
  destruct a as [[|]|[|]| |[|] ma ea], b as [[|]|[|]| |[|] mb eb]; simpl;
    intros H; try discriminate; try reflexivity; sf_cases.
Qed.

Lemma float_ltb_trans (a b c : float) :
  (a <? b)%float = true -> (b <? c)%float = true -> (a <? c)%float = true.
Proof.
  rewrite !ltb_spec. unfold SFltb. intros H1 H2.
  destruct (SFcompare (Prim2SF a) (Prim2SF b)) as [[| |]|] eqn:E1;
    try discriminate.
  destruct (SFcompare (Prim2SF b) (Prim2SF c)) as [[| |]|] eqn:E2;
    try discriminate.
  rewrite (SFcompare_lt_trans _ _ _ E1 E2). reflexivity.
Qed.

Lemma float_leb_ltb_trans (a b c : float) :
  (a <=? b)%float = true -> (b <? c)%float = true -> (a <? c)%float = true.
Proof.
  rewrite leb_spec, !ltb_spec. unfold SFltb. intros H1 H2.
  destruct (SFcompare (Prim2SF b) (Prim2SF c)) as [[| |]|] eqn:E2;
    try discriminate.
  rewrite (SFcompare_le_lt_trans _ _ _ H1 E2). reflexivity.
Qed.

Lemma float_ltb_irrefl (a : float) : (a <? a)%float = false.
Proof.
  rewrite ltb_spec. unfold SFltb.
  destruct (SFcompare (Prim2SF a) (Prim2SF a)) as [[| |]|] eqn:E;
    try reflexivity.
  exfalso; exact (SFcompare_irrefl _ E).
Qed.

Lemma float_leb_not_gt (a b : float) :
  (a <=? b)%float = true -> (b <? a)%float = false.
Proof. rewrite leb_spec, ltb_spec. apply SFleb_not_gt. Qed.

(** ** ContourIndex: the nearest point *)

Section NearestPoint.

Variable pow : float -> float -> float.
Variables xs ys : list float.
Variables xpt ypt : float.
Variable start : nat.

(** The squared distance the scan computes for the point at place [k]. *)
Local Notation "'sqd' k" :=
  (sq_dist pow (nth k xs 0%float) (nth k ys 0%float) xpt ypt)
    (at level 10, k at level 9).

(** The scan keeps the first point that none of the points seen so far
    beats. *)
Lemma nearest_loop_first (hi : nat) :
  forall (n j i_ref : nat),
    (j + n <= length xs)%nat -> (j + n <= length ys)%nat ->
    (start <= i_ref < hi)%nat -> (start <= j)%nat -> (j + n <= hi)%nat ->
    (forall k, (start <= k < j)%nat -> (sqd k <? sqd i_ref)%float = false) ->
    (forall k, (start <= k < i_ref)%nat -> (sqd k <=? sqd i_ref)%float = false) ->
    exists i_ref' : nat,
      for_loop n (Z.of_nat j) (nearest_step pow xs ys xpt ypt)
        (Z.of_nat i_ref, sqd i_ref)
      = Ok (Z.of_nat i_ref', sqd i_ref')
      /\ (start <= i_ref' < hi)%nat
      /\ (forall k, (start <= k < j + n)%nat ->
                    (sqd k <? sqd i_ref')%float = false)
      /\ (forall k, (start <= k < i_ref')%nat ->
                    (sqd k <=? sqd i_ref')%float = false).
Proof.
  induction n as [|n IH]; intros j i_ref Hx Hy Href Hj Hhi Hmin Hfirst.
  - exists i_ref. rewrite Nat.add_0_r. repeat split; try lia; assumption.
  - rewrite for_loop_S. unfold nearest_step at 1.
    rewrite (read_default xs j 0%float), bind_ret by lia.
    rewrite (read_default ys j 0%float), bind_ret by lia.
    cbv zeta. replace (Z.of_nat j + 1) with (Z.of_nat (S j)) by lia.
    destruct (sqd j <? sqd i_ref)%float eqn:Hlt; rewrite bind_ret.
    + destruct (IH (S j) j) as (i' & Hrun & Hr & Hm & Hf); try lia.
      * intros k Hk. destruct (Nat.eq_dec k j) as [->|Hne].
        -- apply float_ltb_irrefl.
        -- destruct (sqd k <? sqd j)%float eqn:E; [|reflexivity].
           rewrite <- (Hmin k) by lia. symmetry.
           apply (float_ltb_trans _ _ _ E Hlt).
      * intros k Hk. destruct (sqd k <=? sqd j)%float eqn:E; [|reflexivity].
        rewrite <- (Hmin k) by lia. symmetry.
        apply (float_leb_ltb_trans _ _ _ E Hlt).
      * exists i'. replace (j + S n)%nat with (S j + n)%nat by lia.
        repeat split; try lia; assumption.
    + destruct (IH (S j) i_ref) as (i' & Hrun & Hr & Hm & Hf);
        try lia; try assumption.
      * intros k Hk. destruct (Nat.eq_dec k j) as [->|Hne];
          [exact Hlt | apply Hmin; lia].
      * exists i'. replace (j + S n)%nat with (S j + n)%nat by lia.
        repeat split; try lia; assumption.
Qed.

End NearestPoint.

(** X1. Over the points [start, end) of the buffers, [nearest_contour_index]
    returns the place, counted from [start], of the first point whose
    squared distance to the target no point of the range beats: none is
    strictly nearer, and every earlier one is strictly farther (or not
    comparable). *)
Theorem nearest_contour_index_first_nearest
    (pow : float -> float -> float) (x_value y_value : list float)
    (xpt ypt : float) (start end_ : nat) :
  (start < end_)%nat ->
  (end_ <= length x_value)%nat -> (end_ <= length y_value)%nat ->
  Z.of_nat end_ < 2 ^ 32 ->
  exists r : nat,
    nearest_contour_index pow x_value y_value xpt ypt
      (Z.of_nat start) (Z.of_nat end_) = Ok (Z.of_nat r)
    /\ (start + r < end_)%nat
    /\ (forall k, (start <= k < end_)%nat ->
          (sq_dist pow (nth k x_value 0) (nth k y_value 0) xpt ypt
           <? sq_dist pow (nth (start + r) x_value 0)
                (nth (start + r) y_value 0) xpt ypt)%float = false)
    /\ (forall k, (start <= k < start + r)%nat ->
          (sq_dist pow (nth k x_value 0) (nth k y_value 0) xpt ypt
           <=? sq_dist pow (nth (start + r) x_value 0)
                 (nth (start + r) y_value 0) xpt ypt)%float = false).
Proof.
  intros Hlt Hx Hy Hsz. unfold nearest_contour_index, for_from.
  rewrite (read_default x_value start 0%float), bind_ret by lia.
  rewrite (read_default y_value start 0%float), bind_ret by lia.
  destruct (nearest_loop_first pow x_value y_value xpt ypt start end_
              (Z.to_nat (Z.of_nat end_ - Z.of_nat start)) start start)
    as (i' & Hrun & Hr & Hm & Hf); try lia.
  rewrite Hrun, bind_ret.
  exists (i' - start)%nat.
  replace (start + (i' - start))%nat with i' by lia.
  split; [rewrite u32_small by lia; f_equal; lia|].
  split; [lia|]. split; [|exact Hf].
  intros k Hk. apply Hm. lia.
Qed.

Lemma nearest_contour_index_first_nearest_witness :
  let x_value := [9; 0; 3; 1; 1; 1]%float in
  let y_value := [9; 0; 0; 0; 0; 2]%float in
  (1 < 5)%nat /\ (5 <= length x_value)%nat /\ (5 <= length y_value)%nat
  /\ Z.of_nat 5 < 2 ^ 32
  /\ nearest_contour_index pow_ieee x_value y_value 1 0 1 5 = Ok 2
  /\ exists r : nat,
       nearest_contour_index pow_ieee x_value y_value 1 0
         (Z.of_nat 1) (Z.of_nat 5) = Ok (Z.of_nat r)
       /\ (1 + r < 5)%nat
       /\ (forall k, (1 <= k < 5)%nat ->
             (sq_dist pow_ieee (nth k x_value 0) (nth k y_value 0) 1 0
              <? sq_dist pow_ieee (nth (1 + r) x_value 0)
                   (nth (1 + r) y_value 0) 1 0)%float = false)
       /\ (forall k, (1 <= k < 1 + r)%nat ->
             (sq_dist pow_ieee (nth k x_value 0) (nth k y_value 0) 1 0
              <=? sq_dist pow_ieee (nth (1 + r) x_value 0)
                    (nth (1 + r) y_value 0) 1 0)%float = false).
Proof.
  cbv zeta. split; [lia|]. split; [simpl; lia|]. split; [simpl; lia|].
  split; [lia|]. split; [reflexivity|].
  apply (nearest_contour_index_first_nearest pow_ieee
           [9; 0; 3; 1; 1; 1]%float [9; 0; 0; 0; 0; 2]%float 1%float 0%float
           1 5); simpl; lia.
Defined.

(** ** ContourIndex: ranges and ownership *)

(** X2. On a well-formed collection and a level with at least one contour,
    [dist_array_size] returns the level's contour range [[l, l + nb)] and
    its point range: from the first point of the level's first contour to
    the end of its last contour, a non-empty range inside the point
    buffers. *)
Theorem dist_array_size_level_span (c : collection) (level : nat) (l nb : Z) :
  well_formedb c = true ->
  nth_error (l_i c) level = Some l ->
  nth_error (nb_c_per_l c) level = Some nb ->
  1 <= nb ->
  exists start fl nl : Z,
    nth_error (indices_of_first_pts c) (Z.to_nat l) = Some start
    /\ nth_error (indices_of_first_pts c) (Z.to_nat (l + nb - 1)) = Some fl
    /\ nth_error (nb_pt_per_c c) (Z.to_nat (l + nb - 1)) = Some nl
    /\ dist_array_size l nb (nb_pt_per_c c) (indices_of_first_pts c)
       = Ok (l, l + nb, start, fl + nl)
    /\ 0 <= start < fl + nl
    /\ fl + nl <= Z.of_nat (length (y_value c)).
Proof.
  intros Hwf Hl Hnb Hpos.
  pose proof (well_formedb_facts c Hwf) as W.
  destruct (lf_level c W level l nb Hl Hnb) as (Hl0 & _ & Hrange).
  destruct (dist_array_size_wf c W (Z.to_nat l) (Z.to_nat nb))
    as (start & stop & fl & nl & Hsize & Hlt & Hstop & Hstart & Hfl & Hnl & Hend);
    try lia.
  rewrite !Z2Nat.id in Hsize by lia.
  exists (Z.of_nat start), fl, nl.
  replace (Z.to_nat (l + nb - 1)) with (Z.to_nat l + Z.to_nat nb - 1)%nat
    by lia.
  split; [exact Hstart|]. split; [exact Hfl|]. split; [exact Hnl|].
  split; [|lia].
  rewrite Hsize. repeat f_equal; lia.
Qed.

Lemma dist_array_size_level_span_witness :
  let c := {| l_i := [0; 2]; nb_c_per_l := [2; 1]; nb_pt_per_c := [3; 2; 4];
              indices_of_first_pts := [0; 3; 5];
              x_value := [0; 1; 2; 3; 4; 5; 6; 7; 8]%float;
              y_value := [0; 0; 1; 1; 2; 2; 3; 3; 4]%float |} in
  well_formedb c = true
  /\ dist_array_size 0 2 (nb_pt_per_c c) (indices_of_first_pts c)
     = Ok (0, 2, 0, 5)
  /\ exists start fl nl : Z,
       nth_error (indices_of_first_pts c) (Z.to_nat 0) = Some start
       /\ nth_error (indices_of_first_pts c) (Z.to_nat (0 + 2 - 1)) = Some fl
       /\ nth_error (nb_pt_per_c c) (Z.to_nat (0 + 2 - 1)) = Some nl
       /\ dist_array_size 0 2 (nb_pt_per_c c) (indices_of_first_pts c)
          = Ok (0, 0 + 2, start, fl + nl)
       /\ 0 <= start < fl + nl
       /\ fl + nl <= Z.of_nat (length (y_value c)).
Proof.
  cbv zeta. split; [reflexivity|]. split; [reflexivity|].
  apply (dist_array_size_level_span _ 0 0 2); try reflexivity. lia.
Defined.

(** Level 1 of a collection of three levels: its contours are numbers 2, 3
    and 4, and the point picked lies in the second of them. *)
Lemma locate_nearest_contour_owner_witness :
  let c := {| l_i := [0; 2; 5]; nb_c_per_l := [2; 3; 1];
              nb_pt_per_c := [3; 2; 2; 3; 1; 2];
              indices_of_first_pts := [0; 3; 5; 7; 10; 11];
              x_value := [0; 0; 0; 0; 0; 0; 0; 0; 0; 0; 0; 0; 0]%float;
              y_value := [0; 1; 2; 3; 4; 5; 6; 7; 8; 9; 10; 11; 12]%float |} in
  well_formedb c = true
  /\ read (nb_c_per_l c) 1 = Ok 3
  /\ 1 <= 3
  /\ locate_nearest_contour pow_ieee 1 c 8 8 = Ok (Some 1)
  /\ exists (l start stop r : Z) (idx : nat) (f n : Z),
       read (l_i c) 1 = Ok l
       /\ dist_array_size l 3 (nb_pt_per_c c) (indices_of_first_pts c)
          = Ok (l, l + 3, start, stop)
       /\ nearest_contour_index pow_ieee (y_value c) (y_value c) 8 8
            start stop = Ok r
       /\ locate_nearest_contour pow_ieee 1 c 8 8 = Ok (Some (Z.of_nat idx))
       /\ nth_error (indices_of_first_pts c) (Z.to_nat l + idx) = Some f
       /\ nth_error (nb_pt_per_c c) (Z.to_nat l + idx) = Some n
       /\ f <= start + r < f + n.
Proof.
  cbv zeta. split; [reflexivity|]. split; [reflexivity|]. split; [lia|].
  split; [reflexivity|].
  apply (locate_nearest_contour_owner pow_ieee 1
           {| l_i := [0; 2; 5]; nb_c_per_l := [2; 3; 1];
              nb_pt_per_c := [3; 2; 2; 3; 1; 2];
              indices_of_first_pts := [0; 3; 5; 7; 10; 11];
              x_value := [0; 0; 0; 0; 0; 0; 0; 0; 0; 0; 0; 0; 0]%float;
              y_value := [0; 1; 2; 3; 4; 5; 6; 7; 8; 9; 10; 11; 12]%float |}
           8%float 8%float 3); [reflexivity | reflexivity | lia].
Defined.

(** ** PolygonContainment: bounds and degenerate edges *)

Lemma s32_small (z : Z) : - 2 ^ 31 <= z < 2 ^ 31 -> s32 z = z.
Proof. intros H. unfold s32. rewrite Z.mod_small by lia. lia. Qed.

Lemma edge_turn_range (x_test y_test : float)
    (e : (float * float) * (float * float)) :
  -1 <= edge_turn x_test y_test e <= 1.
Proof.
  destruct e as [[x_cur y_cur] [x_next y_next]]. unfold edge_turn.
  destruct (y_cur <=? y_test)%float;
    match goal with |- context [if ?b then _ else _] => destruct b end; lia.
Qed.

(** An edge from a vertex to itself turns nothing. *)
Lemma edge_turn_degenerate (x_test y_test : float) (v : float * float) :
  edge_turn x_test y_test (v, v) = 0.
Proof.
  destruct v as [x y]. unfold edge_turn.
  destruct (y <=? y_test)%float eqn:E.
  - rewrite (float_leb_not_gt _ _ E). reflexivity.
  - reflexivity.
Qed.

Lemma Zsum_bound (l : list Z) :
  (forall z, In z l -> -1 <= z <= 1) ->
  - Z.of_nat (length l) <= Zsum l <= Z.of_nat (length l).
Proof.
  induction l as [|a l IH]; intros H; [simpl; lia|].
  rewrite Zsum_cons. simpl length.
  pose proof (H a (or_introl eq_refl)).
  assert (forall z, In z l -> -1 <= z <= 1) by (intros z Hz; apply H; right; exact Hz).
  specialize (IH H1). lia.
Qed.

Lemma Zsum_zero (l : list Z) : (forall z, In z l -> z = 0) -> Zsum l = 0.
Proof.
  induction l as [|a l IH]; intros H; [reflexivity|].
  rewrite Zsum_cons, (H a (or_introl eq_refl)), IH; [reflexivity|].
  intros z Hz; apply H; right; exact Hz.
Qed.

Lemma edges_length {A : Type} (ring : list A) : length (edges ring) = length ring.
Proof. unfold edges. rewrite length_combine, rot1_length. lia. Qed.

Lemma rot1_In {A : Type} (a : A) (l : list A) : In a (rot1 l) -> In a l.
Proof.
  destruct l as [|x tl]; simpl; [trivial|].
  intros H. apply in_app_or in H as [H|[H|[]]]; [right; exact H | left; exact H].
Qed.

Lemma edges_In {A : Type} (a b : A) (ring : list A) :
  In (a, b) (edges ring) -> In a ring /\ In b ring.
Proof.
  unfold edges. intros H. split.
  - apply (in_combine_l _ _ _ _ H).
  - apply rot1_In, (in_combine_r _ _ _ _ H).
Qed.

(** A ring stored closed has the edges of the ring and one more, from the
    first vertex to itself. *)
Lemma edges_closed_storage {A : Type} (ring : list A) :
  edges (ring ++ firstn 1 ring)
  = edges ring ++ map (fun v => (v, v)) (firstn 1 ring).
Proof.
  destruct ring as [|v tl]; [reflexivity|].
  unfold edges. simpl firstn. simpl map.
  change (rot1 ((v :: tl) ++ [v])) with ((tl ++ [v]) ++ [v]).
  change (rot1 (v :: tl)) with (tl ++ [v]).
  apply combine_snoc. rewrite length_app. simpl. lia.
Qed.

(** X4. For a ring of fewer than 2^31 vertices [winding_number_poly] reads
    nothing outside the array, its counter does not wrap, and the winding
    number lies between minus and plus the number of vertices. *)
Theorem winding_number_poly_bounded (x_test y_test : float)
    (xy_poly : list (float * float)) :
  Z.of_nat (length xy_poly) < 2 ^ 31 ->
  exists wn,
    winding_number_poly x_test y_test xy_poly = Ok wn
    /\ wn = Zsum (map (edge_turn x_test y_test) (edges xy_poly))
    /\ - Z.of_nat (length xy_poly) <= wn <= Z.of_nat (length xy_poly).
Proof.
  intros Hsz.
  assert (Hb : - Z.of_nat (length xy_poly)
               <= Zsum (map (edge_turn x_test y_test) (edges xy_poly))
               <= Z.of_nat (length xy_poly)).
  { rewrite <- (edges_length xy_poly).
    rewrite <- (length_map (edge_turn x_test y_test) (edges xy_poly)).
    apply Zsum_bound. intros z Hz. apply in_map_iff in Hz as (e & <- & _).
    apply edge_turn_range. }
  rewrite winding_number_poly_sum by lia.
  rewrite s32_small by lia.
  eexists; split; [reflexivity|]. split; [reflexivity | exact Hb].
Qed.

Lemma winding_number_poly_bounded_witness :
  let ring := [(0, 0); (10, 0); (10, 10); (0, 10)]%float in
  Z.of_nat (length ring) < 2 ^ 31
  /\ winding_number_poly 5 5 ring = Ok 1
  /\ exists wn,
       winding_number_poly 5 5 ring = Ok wn
       /\ wn = Zsum (map (edge_turn 5 5) (edges ring))
       /\ - Z.of_nat (length ring) <= wn <= Z.of_nat (length ring).
Proof.
  cbv zeta. split; [simpl; lia|]. split; [reflexivity|].
  apply winding_number_poly_bounded. simpl; lia.
Defined.

(** X5. Storing the ring closed, with its first vertex written again at the
    end, does not change the winding number. *)
Theorem winding_number_poly_closed_storage (x_test y_test : float)
    (xy_poly : list (float * float)) :
  Z.of_nat (length xy_poly) + 1 < 2 ^ 32 ->
  winding_number_poly x_test y_test (xy_poly ++ firstn 1 xy_poly)
  = winding_number_poly x_test y_test xy_poly.
Proof.
  intros Hsz.
  assert (Hlen : (length (xy_poly ++ firstn 1 xy_poly) <= length xy_poly + 1)%nat).
  { rewrite length_app, length_firstn. lia. }
  rewrite !winding_number_poly_sum by lia.
  rewrite edges_closed_storage, map_app, Zsum_app.
  rewrite (Zsum_zero (map _ (map _ _))); [rewrite Z.add_0_r; reflexivity|].
  intros z Hz. apply in_map_iff in Hz as (e & <- & He).
  apply in_map_iff in He as (v & <- & _). apply edge_turn_degenerate.
Qed.

Lemma winding_number_poly_closed_storage_witness :
  let ring := [(0, 0); (10, 0); (10, 10); (0, 10)]%float in
  Z.of_nat (length ring) + 1 < 2 ^ 32
  /\ winding_number_poly 5 5 (ring ++ [(0, 0)%float]) = Ok 1
  /\ winding_number_poly 5 5 (ring ++ firstn 1 ring)
     = winding_number_poly 5 5 ring.
Proof.
  cbv zeta. split; [simpl; lia|]. split; [reflexivity|].
  apply winding_number_poly_closed_storage. simpl; lia.
Defined.

(** X6. A test point whose ordinate is at or above that of every vertex, or
    below that of every vertex, is outside: its winding number is 0,
    whatever its abscissa. *)
Theorem winding_number_poly_vertically_outside (x_test y_test : float)
    (xy_poly : list (float * float)) :
  Z.of_nat (length xy_poly) < 2 ^ 32 ->
  Forall (fun v => (snd v <=? y_test)%float = true) xy_poly
  \/ Forall (fun v => (snd v <=? y_test)%float = false) xy_poly ->
  winding_number_poly x_test y_test xy_poly = Ok 0.
Proof.
  intros Hsz Hside. rewrite winding_number_poly_sum by exact Hsz.
  rewrite Zsum_zero; [reflexivity|].
  intros z Hz. apply in_map_iff in Hz as ([[x_cur y_cur] [x_next y_next]] & <- & He).
  apply edges_In in He as [Hcur Hnext]. unfold edge_turn.
  destruct Hside as [Ha|Hb].
  - rewrite Forall_forall in Ha.
    pose proof (Ha _ Hcur) as H1. pose proof (Ha _ Hnext) as H2.
    simpl in H1, H2. rewrite H1, (float_leb_not_gt _ _ H2). reflexivity.
  - rewrite Forall_forall in Hb.
    pose proof (Hb _ Hcur) as H1. pose proof (Hb _ Hnext) as H2.
    simpl in H1, H2. rewrite H1, H2. reflexivity.
Qed.

Lemma winding_number_poly_vertically_outside_witness :
  let ring := [(0, 0); (10, 0); (10, 10); (0, 10)]%float in
  Z.of_nat (length ring) < 2 ^ 32
  /\ Forall (fun v => (snd v <=? 10)%float = true) ring
  /\ Forall (fun v => (snd v <=? -1)%float = false) ring
  /\ winding_number_poly 5 10 ring = Ok 0
  /\ winding_number_poly 5 (-1) ring = Ok 0.
Proof.
  cbv zeta. split; [simpl; lia|].
  assert (Ha : Forall (fun v => (snd v <=? 10)%float = true)
                 [(0, 0); (10, 0); (10, 10); (0, 10)]%float)
    by (repeat constructor).
  assert (Hb : Forall (fun v => (snd v <=? -1)%float = false)
                 [(0, 0); (10, 0); (10, 10); (0, 10)]%float)
    by (repeat constructor).
  split; [exact Ha|]. split; [exact Hb|]. split.
  - apply winding_number_poly_vertically_outside; [simpl; lia | left; exact Ha].
  - apply winding_number_poly_vertically_outside; [simpl; lia | right; exact Hb].
Defined.

(** ** Buffers that are too short *)

Lemma for_loop_add {St : Type} (body : Z -> St -> outcome St) :
  forall (a b : nat) (i : Z) (s : St),
    for_loop (a + b) i body s
    = (s' <- for_loop a i body s ;; for_loop b (i + Z.of_nat a) body s').
Proof.
  induction a as [|a IH]; intros b i s.
  - simpl. rewrite Z.add_0_r. reflexivity.
  - change (S a + b)%nat with (S (a + b)). rewrite !for_loop_S.
    destruct (body i s) as [s1|e|]; [|reflexivity|reflexivity].
    rewrite !bind_ret, IH.
    replace (i + 1 + Z.of_nat a) with (i + Z.of_nat (S a)) by lia.
    reflexivity.
Qed.

Lemma set_nth_short {A : Type} (buf : list A) :
  forall (j : nat) (a : A), (length buf <= j)%nat -> set_nth buf j a = None.
Proof.
  induction buf as [|x buf IH]; intros j a H; [reflexivity|].
  destruct j as [|j]; simpl in H; [lia|].
  simpl. rewrite IH by lia. reflexivity.
Qed.

Lemma write_short {A : Type} (buf : list A) (j : nat) (a : A) :
  (length buf <= j)%nat -> write buf (Z.of_nat j) a = Undefined.
Proof.
  intros H. unfold write.
  destruct (Z.ltb_spec (Z.of_nat j) 0) as [_|_]; [reflexivity|].
  rewrite Nat2Z.id, set_nth_short by exact H. reflexivity.
Qed.

(** X7. [distance_vector] runs over the length of [lon0]; when [lat0],
    [lon1], [lat1] or the output buffer is shorter than that, the call reads
    or writes outside a buffer (no exception is raised, and no result is
    defined). *)
Theorem distance_vector_short_buffer
    (sin cos : float -> float) (atan2 pow : float -> float -> float)
    (lon0 lat0 lon1 lat1 dist : list float) :
  Z.of_nat (length lon0) < 2 ^ 32 ->
  (length lat0 < length lon0)%nat \/ (length lon1 < length lon0)%nat
  \/ (length lat1 < length lon0)%nat \/ (length dist < length lon0)%nat ->
  distance_vector sin cos atan2 pow lon0 lat0 lon1 lat1 dist = Undefined.
Proof.
  intros Hsz Hshort. unfold distance_vector, for_from.
  rewrite u32_small by lia. rewrite Z.sub_0_r, Nat2Z.id.
  set (m := Nat.min (Nat.min (length lat0) (length lon1))
              (Nat.min (length lat1) (length dist))).
  assert (Hm : (m < length lon0)%nat) by (unfold m; lia).
  replace (length lon0) with (m + S (length lon0 - m - 1))%nat at 1 by lia.
  rewrite for_loop_add.
  assert (Hrun := distance_vector_loop sin cos atan2 pow lon0 lat0 lon1 lat1
                    m 0 [] dist).
  simpl app in Hrun. change (Z.of_nat 0) with 0 in Hrun.
  rewrite Hrun by (unfold m; simpl; lia).
  rewrite bind_ret, for_loop_S, Z.add_0_l.
  unfold distance_vector_step at 1.
  destruct (le_lt_dec (length lat1) m) as [H1|H1];
    [rewrite (read_short lat1 m H1); reflexivity|].
  rewrite (read_default lat1 m 0%float H1), bind_ret.
  destruct (le_lt_dec (length lat0) m) as [H2|H2];
    [rewrite (read_short lat0 m H2); reflexivity|].
  rewrite (read_default lat0 m 0%float H2), bind_ret.
  destruct (le_lt_dec (length lon1) m) as [H3|H3];
    [rewrite (read_short lon1 m H3); reflexivity|].
  rewrite (read_default lon1 m 0%float H3), bind_ret.
  rewrite (read_default lon0 m 0%float Hm), bind_ret. cbv zeta.
  rewrite write_short; [reflexivity|].
  rewrite length_app, length_map, length_seq, length_skipn. unfold m in *. lia.
Qed.

Lemma distance_vector_short_buffer_witness :
  Z.of_nat (length [0; 1; 2]%float) < 2 ^ 32
  /\ (length [1; 3]%float < length [0; 1; 2]%float)%nat
  /\ distance_vector sin_series cos_series atan2_series pow_ieee
       [0; 1; 2]%float [0; 1; 2]%float [0; 2; 4]%float [1; 3]%float
       [9; 9; 9]%float = Undefined.
Proof.
  split; [simpl; lia|]. split; [simpl; lia|].
  apply distance_vector_short_buffer; [simpl; lia|].
  right; right; left; simpl; lia.
Defined.

(** ** CircleFitter: lengths and accesses *)

Section CircleFitterAccesses.

Variable pow : float -> float -> float.
Variable lstsq :
  list (float * float * float) -> list float -> outcome (float * float * float).
Variables x_vec y_vec : list float.

Lemma centroid_loop_ok :
  forall (n i : nat) (st : float * float),
    (i + n <= length x_vec)%nat -> (i + n <= length y_vec)%nat ->
    exists st', for_loop n (Z.of_nat i) (centroid_step x_vec y_vec) st = Ok st'.
Proof.
  induction n as [|n IH]; intros i [xm ym] Hx Hy.
  - eexists; reflexivity.
  - rewrite for_loop_S. unfold centroid_step at 1.
    rewrite (read_default x_vec i 0%float), bind_ret by lia.
    rewrite (read_default y_vec i 0%float), !bind_ret by lia.
    replace (Z.of_nat i + 1) with (Z.of_nat (S i)) by lia.
    apply IH; lia.
Qed.

Lemma centroid_cases (n : nat) :
  (n <= length x_vec)%nat -> (n <= length y_vec)%nat ->
  (exists m, centroid x_vec y_vec (Z.of_nat n) = Ok m)
  \/ centroid x_vec y_vec (Z.of_nat n) = Raise ZeroDivisionError.
Proof.
  intros Hx Hy. unfold centroid, for_from. rewrite Z.sub_0_r, Nat2Z.id.
  change 0 with (Z.of_nat 0).
  destruct (centroid_loop_ok n 0 (0, 0)%float) as [[xm ym] Hrun]; try lia.
  rewrite Hrun, bind_ret. unfold fdiv.
  destruct (ui_to_double (Z.of_nat n) =? 0)%float;
    [right; reflexivity | left; eexists; reflexivity].
Qed.

(** With [y_vec] the shorter array the mean loop reads past its end. *)
Lemma centroid_short :
  (length y_vec < length x_vec)%nat ->
  centroid x_vec y_vec (Z.of_nat (length x_vec)) = Undefined.
Proof.
  intros Hlt. unfold centroid, for_from. rewrite Z.sub_0_r, Nat2Z.id.
  replace (length x_vec)
    with (length y_vec + S (length x_vec - length y_vec - 1))%nat at 1 by lia.
  rewrite for_loop_add, Z.add_0_l. change 0 with (Z.of_nat 0).
  destruct (centroid_loop_ok (length y_vec) 0 (0, 0)%float) as [[xm ym] Hrun];
    try lia.
  rewrite Hrun, bind_ret, for_loop_S.
  unfold centroid_step at 1.
  rewrite (read_default x_vec (length y_vec) 0%float Hlt), bind_ret.
  rewrite (read_short y_vec (length y_vec)) by lia. reflexivity.
Qed.

Lemma datas_step_cases (x_mean y_mean scale : float) (i : nat)
    (datas : list (float * float * float)) :
  (i < length x_vec)%nat -> (i < length y_vec)%nat ->
  (exists datas',
      datas_step x_vec y_vec x_mean y_mean scale (Z.of_nat i) datas = Ok datas')
  \/ datas_step x_vec y_vec x_mean y_mean scale (Z.of_nat i) datas
     = Raise ZeroDivisionError.
Proof.
  intros Hx Hy. unfold datas_step, fdiv.
  rewrite (read_default x_vec i 0%float Hx), !bind_ret.
  destruct (scale =? 0)%float; [right; reflexivity|].
  rewrite bind_ret, (read_default y_vec i 0%float Hy), !bind_ret.
  left; eexists; reflexivity.
Qed.

Lemma datas_loop_cases (x_mean y_mean scale : float) :
  forall (n i : nat) (datas : list (float * float * float)),
    (i + n <= length x_vec)%nat -> (i + n <= length y_vec)%nat ->
    (exists datas',
        for_loop n (Z.of_nat i)
          (datas_step x_vec y_vec x_mean y_mean scale) datas = Ok datas')
    \/ for_loop n (Z.of_nat i)
         (datas_step x_vec y_vec x_mean y_mean scale) datas
       = Raise ZeroDivisionError.
Proof.
  induction n as [|n IH]; intros i datas Hx Hy.
  - left; eexists; reflexivity.
  - rewrite for_loop_S.
    destruct (datas_step_cases x_mean y_mean scale i datas) as [[d Hd]|Hd];
      try lia; rewrite Hd; [|right; reflexivity].
    rewrite bind_ret.
    replace (Z.of_nat i + 1) with (Z.of_nat (S i)) by lia.
    apply IH; lia.
Qed.

End CircleFitterAccesses.

Lemma fit_circle_c_zero_area_witness :
  let x_vec := [0; 0; 0x1p-600; -0x1p-600; 0x1p-601; -0x1p-601]%float in
  let y_vec := [0x1p-537; -0x1p-537; 0; 0; 0; 0]%float in
  let radius := (PrimFloat.sqrt (2 / 6) * 0x1p-537)%float in
  length y_vec = length x_vec
  /\ Z.of_nat (length x_vec) < 2 ^ 32
  /\ fitted_circle pow_ieee lstsq_orth x_vec y_vec = Ok (0, 0, radius)%float
  /\ (pow_ieee radius 2 * PI =? 0)%float = true
  /\ fit_circle_c pow_ieee lstsq_orth x_vec y_vec = Raise ZeroDivisionError.
Proof.
  cbv zeta. split; [reflexivity|]. split; [simpl; lia|].
  split; [reflexivity|]. split; [reflexivity|].
  apply (fit_circle_c_zero_area pow_ieee lstsq_orth _ _ 0%float 0%float
           (PrimFloat.sqrt (2 / 6) * 0x1p-537)%float);
    reflexivity.
Defined.

(** X8. Arrays of different lengths give no result: with [y_vec] the
    shorter one the mean loop reads past its end; with [y_vec] the longer
    one (and [x_vec] not of length one, which numpy would stretch) the call
    ends in an exception, [ZeroDivisionError] or numpy's [ValueError]. *)
Theorem fit_circle_c_mismatched_lengths
    (pow : float -> float -> float)
    (lstsq : list (float * float * float) -> list float
             -> outcome (float * float * float))
    (x_vec y_vec : list float) :
  Z.of_nat (length x_vec) < 2 ^ 32 ->
  ((length y_vec < length x_vec)%nat ->
   fit_circle_c pow lstsq x_vec y_vec = Undefined)
  /\ ((length x_vec < length y_vec)%nat -> length x_vec <> 1%nat ->
      fit_circle_c pow lstsq x_vec y_vec = Raise ZeroDivisionError
      \/ fit_circle_c pow lstsq x_vec y_vec = Raise ValueError).
Proof.
  intros Hsz. split.
  - intros Hlt. unfold fit_circle_c, fitted_circle. cbv zeta.
    rewrite u32_small by lia. rewrite (centroid_short x_vec y_vec Hlt).
    reflexivity.
  - intros Hlt Hone. unfold fit_circle_c, fitted_circle. cbv zeta.
    rewrite u32_small by lia.
    destruct (centroid_cases x_vec y_vec (length x_vec)) as [[[xm ym] Hc]|Hc];
      try lia; rewrite Hc; [|left; reflexivity].
    right. rewrite bind_ret. unfold np_broadcast.
    destruct (Nat.eqb_spec (length x_vec) (length y_vec)) as [He|_]; [lia|].
    destruct x_vec as [|x0 [|x1 xt]]; [discriminate Hc | contradiction |].
    destruct y_vec as [|y0 [|y1 yt]]; simpl in Hlt; try lia.
    reflexivity.
Qed.

Lemma fit_circle_c_mismatched_lengths_witness :
  Z.of_nat (length [0; 1; 0]%float) < 2 ^ 32
  /\ fit_circle_c pow_ieee lstsq_orth [0; 1; 0]%float [0; 0]%float = Undefined
  /\ fit_circle_c pow_ieee lstsq_orth [0; 1]%float [0; 0; 1]%float
     = Raise ValueError
  /\ (fit_circle_c pow_ieee lstsq_orth [0; 1]%float [0; 0; 1]%float
      = Raise ZeroDivisionError
      \/ fit_circle_c pow_ieee lstsq_orth [0; 1]%float [0; 0; 1]%float
         = Raise ValueError).
Proof.
  split; [simpl; lia|]. split.
  - apply (fit_circle_c_mismatched_lengths pow_ieee lstsq_orth
             [0; 1; 0]%float [0; 0]%float); simpl; lia.
  - split; [reflexivity|].
    apply (fit_circle_c_mismatched_lengths pow_ieee lstsq_orth
             [0; 1]%float [0; 0; 1]%float); simpl; lia.
Defined.

Lemma fitted_circle_defined
    (pow : float -> float -> float)
    (lstsq : list (float * float * float) -> list float
             -> outcome (float * float * float))
    (x_vec y_vec : list float) :
  length y_vec = length x_vec ->
  Z.of_nat (length x_vec) < 2 ^ 32 ->
  (forall datas rhs, lstsq datas rhs <> Undefined) ->
  fitted_circle pow lstsq x_vec y_vec <> Undefined.
Proof.
  intros Hy Hsz Hsolver. unfold fitted_circle. cbv zeta.
  rewrite u32_small by lia.
  destruct (centroid_cases x_vec y_vec (length x_vec)) as [[[xm ym] Hc]|Hc];
    try lia; rewrite Hc; [|discriminate].
  rewrite bind_ret. unfold np_broadcast.
  rewrite Hy, Nat.eqb_refl, bind_ret.
  match goal with
  | |- context [np_max ?l] => destruct (np_max l) as [nm|e|] eqn:Hmax
  end; [|discriminate|].
  - rewrite bind_ret. unfold for_from. rewrite Z.sub_0_r, Nat2Z.id.
    change 0 with (Z.of_nat 0).
    destruct (datas_loop_cases x_vec y_vec xm ym (pow nm 0.5%float)
                (length x_vec) 0 [])
      as [[d Hd]|Hd]; try lia; rewrite Hd; [|discriminate].
    rewrite bind_ret.
    match goal with
    | |- context [lstsq ?a ?b] =>
        pose proof (Hsolver a b); destruct (lstsq a b) as [[[cx cy] r]|e|]
    end; [discriminate | discriminate | contradiction].
  - unfold np_max in Hmax.
    match type of Hmax with
    | match ?l with _ => _ end = _ => destruct l; discriminate
    end.
Qed.

(** X10. With arrays of one length, and a solver that returns or raises,
    [fit_circle_c] makes no access outside a buffer: it returns its result
    or ends in an exception. *)
Theorem fit_circle_c_accesses_in_bounds
    (pow : float -> float -> float)
    (lstsq : list (float * float * float) -> list float
             -> outcome (float * float * float))
    (x_vec y_vec : list float) :
  length y_vec = length x_vec ->
  Z.of_nat (length x_vec) < 2 ^ 32 ->
  (forall datas rhs, lstsq datas rhs <> Undefined) ->
  fit_circle_c pow lstsq x_vec y_vec <> Undefined.
Proof.
  intros Hy Hsz Hsolver. unfold fit_circle_c.
  destruct (fitted_circle pow lstsq x_vec y_vec) as [[[cx cy] r]|e|] eqn:Hfit;
    [|discriminate|].
  - assert (Hn : (1 <= length x_vec)%nat).
    { destruct x_vec as [|x xt]; [|simpl; lia].
      rewrite fitted_circle_empty in Hfit. discriminate. }
    rewrite bind_ret. rewrite u32_small by lia.
    destruct (project_ring pow cx cy r x_vec y_vec (Z.of_nat (length x_vec)))
      as [[px py]|e|] eqn:Hproj; [|discriminate|].
    + destruct (project_ring_length pow _ _ _ _ _ _ _ Hy Hproj) as [Hlx Hly].
      rewrite bind_ret,
        (ring_areas_chain px py x_vec y_vec Hlx Hly Hy Hn Hsz), bind_ret.
      cbv zeta. unfold shape_error, fdiv.
      destruct (pow r 2 * PI =? 0)%float; discriminate.
    + exfalso. revert Hproj. unfold project_ring, for_from.
      rewrite Z.sub_0_r, Nat2Z.id. change 0 with (Z.of_nat 0).
      destruct (project_loop_cases pow cx cy r x_vec y_vec
                  (length x_vec) 0 [] [])
        as [(px' & py' & Hrun & _)|Hr]; try (simpl; lia).
      * rewrite Hrun; discriminate.
      * rewrite Hr; discriminate.
  - exfalso. exact (fitted_circle_defined pow lstsq x_vec y_vec Hy Hsz Hsolver Hfit).
Qed.

Lemma lstsq_orth_defined (datas : list (float * float * float))
    (rhs : list float) :
  lstsq_orth datas rhs <> Undefined.
Proof.
  unfold lstsq_orth. cbv zeta.
  match goal with |- (if ?b then _ else _) <> _ => destruct b end; discriminate.
Qed.

Lemma fit_circle_c_accesses_in_bounds_witness :
  let x_vec := [2; 0; -2; 0]%float in
  let y_vec := [0; 1; 0; -1]%float in
  length y_vec = length x_vec
  /\ Z.of_nat (length x_vec) < 2 ^ 32
  /\ (forall datas rhs, lstsq_orth datas rhs <> Undefined)
  /\ fit_circle_c pow_ieee lstsq_orth x_vec y_vec <> Undefined.
Proof.
  cbv zeta. split; [reflexivity|]. split; [simpl; lia|].
  split; [exact lstsq_orth_defined|].
  apply fit_circle_c_accesses_in_bounds;
    [reflexivity | simpl; lia | exact lstsq_orth_defined].
Defined.

(** X11. When no vertex lies strictly outside the fitted circle the
    clipped ring is the ring itself, and the shape error is computed from
    the one area of the ring. *)
Theorem fit_circle_c_ring_inside_circle
    (pow : float -> float -> float)
    (lstsq : list (float * float * float) -> list float
             -> outcome (float * float * float))
    (x_vec y_vec : list float) (center_x center_y radius a_err : float) :
  length y_vec = length x_vec ->
  Z.of_nat (length x_vec) < 2 ^ 32 ->
  fitted_circle pow lstsq x_vec y_vec = Ok (center_x, center_y, radius) ->
  (forall k, (k < length x_vec)%nat ->
     (radius <? pow (pow (nth k x_vec 0 - center_x) 2
                     + pow (nth k y_vec 0 - center_y) 2) 0.5)%float = false) ->
  shape_error (pow radius 2 * PI)%float
    (chain_area x_vec y_vec) (chain_area x_vec y_vec) = Ok a_err ->
  project_ring pow center_x center_y radius x_vec y_vec
    (Z.of_nat (length x_vec)) = Ok (x_vec, y_vec)
  /\ fit_circle_c pow lstsq x_vec y_vec
     = Ok (center_x, center_y, radius, a_err).
Proof.
  intros Hy Hsz Hfit Hin Herr.
  assert (Hn : (1 <= length x_vec)%nat).
  { destruct x_vec as [|x xt]; [|simpl; lia].
    rewrite fitted_circle_empty in Hfit. discriminate. }
  assert (Hproj : project_ring pow center_x center_y radius x_vec y_vec
                    (Z.of_nat (length x_vec)) = Ok (x_vec, y_vec)).
  { unfold project_ring, for_from. rewrite Z.sub_0_r, Nat2Z.id.
    change 0 with (Z.of_nat 0).
    change (@nil float) with (firstn 0 x_vec) at 1.
    change (@nil float) with (firstn 0 y_vec).
    rewrite (project_loop_inside pow x_vec y_vec center_x center_y radius Hin)
      by lia.
    simpl Nat.add. rewrite firstn_all. rewrite <- Hy at 1.
    rewrite firstn_all. reflexivity. }
  split; [exact Hproj|].
  unfold fit_circle_c. rewrite Hfit, bind_ret. rewrite u32_small by lia.
  rewrite Hproj, bind_ret.
  rewrite (ring_areas_chain x_vec y_vec x_vec y_vec eq_refl Hy Hy Hn Hsz),
    bind_ret.
  cbv zeta. unfold chain_area in Herr. rewrite Herr, bind_ret. reflexivity.
Qed.

(** The rectangle of corners [(3,1), (-3,1), (-3,-1), (3,-1)]: the fitted
    circle has radius [sqrt 10], the distance of every corner to the centre,
    so that none is strictly outside. *)
Lemma fit_circle_c_ring_inside_circle_witness :
  let x_vec := [3; -3; -3; 3]%float in
  let y_vec := [1; 1; -1; -1]%float in
  let radius := PrimFloat.sqrt 10 in
  let c_area := (radius * radius * PI)%float in
  let a_err := (((c_area - 2 * 9 + 9) * 100) / c_area)%float in
  fitted_circle pow_ieee lstsq_orth x_vec y_vec = Ok (0, 0, radius)%float
  /\ (forall k, (k < length x_vec)%nat ->
        (radius <? pow_ieee (pow_ieee (nth k x_vec 0 - 0) 2
                             + pow_ieee (nth k y_vec 0 - 0) 2) 0.5)%float
        = false)
  /\ project_ring pow_ieee 0 0 radius x_vec y_vec 4 = Ok (x_vec, y_vec)
  /\ fit_circle_c pow_ieee lstsq_orth x_vec y_vec
     = Ok (0, 0, radius, a_err)%float.
Proof.
  cbv zeta.
  assert (Hin : forall k, (k < length [3; -3; -3; 3]%float)%nat ->
            (PrimFloat.sqrt 10
             <? pow_ieee (pow_ieee (nth k [3; -3; -3; 3] 0 - 0) 2
                          + pow_ieee (nth k [1; 1; -1; -1] 0 - 0) 2) 0.5)%float
            = false).
  { intros k Hk. simpl in Hk.
    do 4 (destruct k as [|k]; [reflexivity|]). lia. }
  split; [reflexivity|]. split; [exact Hin|].
  apply (fit_circle_c_ring_inside_circle pow_ieee lstsq_orth
           [3; -3; -3; 3]%float [1; 1; -1; -1]%float 0%float 0%float
           (PrimFloat.sqrt 10));
    try reflexivity; try exact Hin.
Defined.
